(** * Arivu chat relay: a shallow embedding of [server/index.js]

    The server is one Express application with three routes and two
    process-wide variables ([genAI], [currentApiKeyIndex]).  The embedding
    keeps the handlers as programs of a small state-and-exception monad over
    the process record, with the Gemini client library and [fetch] as the
    fields of a [Host] record, so that every statement below is quantified
    over all behaviours of the backend.

    Strings are sequences of code units below 256; JSON numbers are kept
    as integers, which is all that truthiness looks at. *)

From Stdlib Require Import String Ascii List ZArith Bool Arith Lia.
Import ListNotations.
Local Open Scope string_scope.
Set Warnings "-register-all".

(** ** JSON values as the handlers see them *)

Inductive JsVal : Type :=
| JUndefined
| JNull
| JBool (b : bool)
| JNum (n : Z)
| JStr (s : string)
| JArr (items : list JsVal)
| JObj (fields : list (string * JsVal)).

(** What is thrown and caught: only [error.message] is ever inspected. *)
Record Error : Type := mkError { message : string }.

Inductive Outcome (A : Type) : Type :=
| Returned (a : A)
| Thrown (e : Error).
Arguments Returned {A} a.
Arguments Thrown {A} e.

(** [!v] is [negb (truthy v)]. *)
Definition truthy (v : JsVal) : bool :=
  match v with
  | JUndefined | JNull => false
  | JBool b => b
  | JNum n => negb (n =? 0)%Z
  | JStr s => negb (s =? "")
  | JArr _ | JObj _ => true
  end.

(** [a || b] *)
Definition jsOr (a b : JsVal) : JsVal := if truthy a then a else b.

(** The fields of a parsed object: keys are distinct, so the first binding
    of a key is its value. *)
Fixpoint lookupField (k : string) (fields : list (string * JsVal)) : JsVal :=
  match fields with
  | [] => JUndefined
  | (k', v) :: rest => if k' =? k then v else lookupField k rest
  end.

Definition typeError (msg : string) : Error := mkError msg.
Definition referenceError (name : string) : Error :=
  mkError (name ++ " is not defined").

(** [v.k] for the property names the handlers read ([role], [content],
    [text], [models]): an own field of an object, [undefined] on any other
    non-nullish value, a TypeError on [null] and [undefined]. *)
Definition getProp (v : JsVal) (k : string) : Outcome JsVal :=
  match v with
  | JUndefined =>
      Thrown (typeError ("Cannot read properties of undefined (reading '" ++ k ++ "')"))
  | JNull =>
      Thrown (typeError ("Cannot read properties of null (reading '" ++ k ++ "')"))
  | JObj fields => Returned (lookupField k fields)
  | _ => Returned JUndefined
  end.

(** ** [String.prototype.includes] and [String.prototype.trim] *)

Fixpoint startsWith (s needle : string) : bool :=
  match needle, s with
  | EmptyString, _ => true
  | String _ _, EmptyString => false
  | String c needle', String d s' => Ascii.eqb c d && startsWith s' needle'
  end.

Fixpoint includes (s needle : string) : bool :=
  startsWith s needle ||
  match s with
  | EmptyString => false
  | String _ s' => includes s' needle
  end.

(** White space and line terminators among the code units below 256:
    TAB, LF, VT, FF, CR, SP and NBSP. *)
Definition isWhiteSpace (c : ascii) : bool :=
  let n := nat_of_ascii c in
  ((9 <=? n) && (n <=? 13) || (n =? 32) || (n =? 160))%nat.

Fixpoint trimStart (s : string) : string :=
  match s with
  | EmptyString => EmptyString
  | String c s' => if isWhiteSpace c then trimStart s' else s
  end.

Fixpoint trimEnd (s : string) : string :=
  match s with
  | EmptyString => EmptyString
  | String c s' =>
      match trimEnd s' with
      | EmptyString => if isWhiteSpace c then EmptyString else String c EmptyString
      | t => String c t
      end
  end.

Definition trim (s : string) : string := trimEnd (trimStart s).

(** ** A state-and-exception monad

    [await], [throw] and [try]/[catch] over a mutable store [S]. *)

Definition M (S A : Type) : Type := S -> Outcome A * S.

Definition ret {S A} (a : A) : M S A := fun s => (Returned a, s).

Definition throw {S A} (e : Error) : M S A := fun s => (Thrown e, s).

Definition bind {S A B} (m : M S A) (k : A -> M S B) : M S B :=
  fun s =>
    match m s with
    | (Returned a, s') => k a s'
    | (Thrown e, s') => (Thrown e, s')
    end.

Definition tryCatch {S A} (m : M S A) (handler : Error -> M S A) : M S A :=
  fun s =>
    match m s with
    | (Returned a, s') => (Returned a, s')
    | (Thrown e, s') => handler e s'
    end.

Definition getState {S} : M S S := fun s => (Returned s, s).

Definition liftO {S A} (o : Outcome A) : M S A := fun s => (o, s).

Notation "x <- m ;; k" := (bind m (fun x => k))
  (at level 61, m at next level, right associativity).
Notation "m ;; k" := (bind m (fun _ => k))
  (at level 61, right associativity).

Definition obind {A B} (o : Outcome A) (k : A -> Outcome B) : Outcome B :=
  match o with
  | Returned a => k a
  | Thrown e => Thrown e
  end.

(** [Array.prototype.map] and [Array.prototype.filter] with a callback that
    may throw: the first throw aborts the traversal. *)
Fixpoint mapO {A B} (f : A -> Outcome B) (l : list A) : Outcome (list B) :=
  match l with
  | [] => Returned []
  | x :: rest =>
      obind (f x) (fun y => obind (mapO f rest) (fun ys => Returned (y :: ys)))
  end.

Fixpoint filterO {A} (f : A -> Outcome bool) (l : list A) : Outcome (list A) :=
  match l with
  | [] => Returned []
  | x :: rest =>
      obind (f x) (fun keep =>
        obind (filterO f rest) (fun xs =>
          Returned (if keep then x :: xs else xs)))
  end.

(** ** What is handed to the client library *)

Record Part : Type := { text : JsVal }.
Record Content : Type := { role : string; parts : list Part }.

Record ModelHandle : Type := { mh_key : string; mh_model : string }.
Record ChatSession : Type :=
  { cs_model : ModelHandle; cs_history : option (list Content) }.

Inductive LogLine : Type :=
| LogNoKeyWarning
| LogNoKeyHint
| LogSwitched (keyNumber : nat)
| LogErrorDetails (e : Error)
| LogErrorMessage (m : string)
| LogErrorStack (e : Error)
| LogRetryFailed (retryError : Error).

(** Everything the process does that is visible outside it, oldest first. *)
Inductive Event : Type :=
| EvGetModel (key model : string)
| EvStartChat (m : ModelHandle) (history : option (list Content))
| EvSendMessage (c : ChatSession) (msg : JsVal)
| EvFetch (url : string)
| EvConsole (line : LogLine).

Definition isBackendCall (ev : Event) : bool :=
  match ev with
  | EvConsole _ => false
  | _ => true
  end.

(** The client library, [fetch] and the one coercion of the engine that the
    model does not compute.  Each call may depend on, and change, the state
    of the world, and either returns or throws. *)
Record Host : Type := {
  World : Type;
  (** [new GoogleGenerativeAI(key).getGenerativeModel({ model })] *)
  getGenerativeModel : World -> string -> string -> World * Outcome unit;
  (** [model.startChat()] and [model.startChat({ history })] *)
  startChat : World -> ModelHandle -> option (list Content) -> World * Outcome unit;
  (** [(await (await chat.sendMessage(msg)).response).text()] *)
  sendMessage : World -> ChatSession -> JsVal -> World * Outcome string;
  (** [await (await fetch(url)).json()] *)
  fetchJson : World -> string -> World * Outcome JsVal;
  (** [v > 0] for a string, array or object [v] (ToPrimitive, then the
      conversion of a string to a double) *)
  coerceGtZero : JsVal -> bool
}.

(** ** HTTP responses *)

Inductive Body : Type :=
| ChatReply (reply : string)
    (** [{ message: reply, success: true }] *)
| Failure (error : string) (details : option string)
    (** [{ error, details, success: false }], [details] where present *)
| ModelList (models : JsVal)
    (** [{ models, success: true }] *)
| HealthOk.
    (** [{ status: 'OK', message: 'Arivu AI Server is running' }] *)

Record Response : Type := { status : nat; body : Body }.

Definition success (r : Response) : bool :=
  match body r with
  | Failure _ _ => false
  | _ => true
  end.

(** ** The process *)

Record Env : Type :=
  { GEMINI_API_KEY : option string; GEMINI_API_KEY_2 : option string }.

Record Proc (W : Type) : Type := {
  env : Env;
  apiKeys : list string;
  currentApiKeyIndex : nat;
  genAI : string;   (** the key the current client was constructed with *)
  world : W;
  trace : list Event
}.
Arguments env {W} p.
Arguments apiKeys {W} p.
Arguments currentApiKeyIndex {W} p.
Arguments genAI {W} p.
Arguments world {W} p.
Arguments trace {W} p.

Definition withWorld {W} (w : W) (ev : Event) (p : Proc W) : Proc W :=
  {| env := env p; apiKeys := apiKeys p;
     currentApiKeyIndex := currentApiKeyIndex p; genAI := genAI p;
     world := w; trace := trace p ++ [ev] |}.

Definition withEvent {W} (ev : Event) (p : Proc W) : Proc W :=
  withWorld (world p) ev p.

Definition withKey {W} (i : nat) (p : Proc W) : Proc W :=
  {| env := env p; apiKeys := apiKeys p;
     currentApiKeyIndex := i; genAI := nth i (apiKeys p) "";
     world := world p; trace := trace p |}.

(** [Boolean(process.env.X)]: set and not the empty string. *)
Definition envTruthy (v : option string) : bool :=
  match v with
  | Some s => negb (s =? "")
  | None => false
  end.

(** [[apiKey1, apiKey2].filter(Boolean)] *)
Definition collectKeys (e : Env) : list string :=
  concat (map (fun v => match v with
                        | Some s => if s =? "" then [] else [s]
                        | None => []
                        end)
              [GEMINI_API_KEY e; GEMINI_API_KEY_2 e]).

(** ** History formatting (lines 79-83) *)

Definition strictEqStr (v : JsVal) (s : string) : bool :=
  match v with
  | JStr t => t =? s
  | _ => false
  end.

(** The callback of [history.map]. *)
Definition formatTurn (msg : JsVal) : Outcome Content :=
  obind (getProp msg "role") (fun r =>
  obind (getProp msg "content") (fun c =>
  obind (getProp msg "text") (fun t =>
    Returned {| role := if strictEqStr r "user" then "user" else "model";
                parts := [ {| text := jsOr (jsOr c t) (JStr "") |} ] |}))).

(** The callback of [.filter]: [msg.parts[0].text.trim() !== '']. *)
Definition keepTurn (msg : Content) : Outcome bool :=
  match parts msg with
  | [] => Thrown (typeError "Cannot read properties of undefined (reading 'text')")
  | p :: _ =>
      match text p with
      | JStr s => Returned (negb (trim s =? ""))
      | JUndefined =>
          Thrown (typeError "Cannot read properties of undefined (reading 'trim')")
      | JNull =>
          Thrown (typeError "Cannot read properties of null (reading 'trim')")
      | _ => Thrown (typeError "msg.parts[0].text.trim is not a function")
      end
  end.

(** [history.map(...).filter(...)]; only an array has [map]. *)
Definition formattedHistory (history : JsVal) : Outcome (list Content) :=
  match history with
  | JArr items => obind (mapO formatTurn items) (filterO keepTurn)
  | _ => Thrown (typeError "history.map is not a function")
  end.

(** ** Error classification (lines 106-113) *)

Definition msgDefault : string := "Failed to get response from AI".
Definition msgApiKey : string :=
  "Invalid or missing API key. Please check your GEMINI_API_KEY in server/.env".
Definition msgQuota : string := "API quota exceeded. Please try again later.".
Definition msgSafety : string :=
  "The message was blocked by safety filters. Please try rephrasing.".

Definition errorMessage (error : Error) : string :=
  if includes (message error) "API_KEY" then msgApiKey
  else if includes (message error) "quota" || includes (message error) "429"
       then msgQuota
  else if includes (message error) "safety" then msgSafety
  else msgDefault.

Section Server.

Variable H : Host.

Local Abbreviation P := (Proc (World H)).

(** [v > 0] *)
Definition gtZero (v : JsVal) : bool :=
  match v with
  | JUndefined | JNull => false
  | JBool b => b
  | JNum n => (0 <? n)%Z
  | _ => coerceGtZero H v
  end.

(** [history.length > 0] for a truthy [history]. *)
Definition lengthGtZero (history : JsVal) : bool :=
  match history with
  | JArr items => (0 <? List.length items)%nat
  | JStr s => (0 <? String.length s)%nat
  | JObj fields => gtZero (lookupField "length" fields)
  | _ => false
  end.

Definition consoleLog (line : LogLine) : M P unit :=
  fun p => (Returned tt, withEvent (EvConsole line) p).

(** [genAI.getGenerativeModel({ model })] on the current client. *)
Definition getModel (model : string) : M P ModelHandle :=
  fun p =>
    let key := genAI p in
    let (w, r) := getGenerativeModel H (world p) key model in
    let p' := withWorld w (EvGetModel key model) p in
    match r with
    | Returned _ => (Returned {| mh_key := key; mh_model := model |}, p')
    | Thrown e => (Thrown e, p')
    end.

Definition startChatM (m : ModelHandle) (history : option (list Content))
  : M P ChatSession :=
  fun p =>
    let (w, r) := startChat H (world p) m history in
    let p' := withWorld w (EvStartChat m history) p in
    match r with
    | Returned _ => (Returned {| cs_model := m; cs_history := history |}, p')
    | Thrown e => (Thrown e, p')
    end.

Definition sendMessageM (c : ChatSession) (msg : JsVal) : M P string :=
  fun p =>
    let (w, r) := sendMessage H (world p) c msg in
    (r, withWorld w (EvSendMessage c msg) p).

Definition fetchJsonM (url : string) : M P JsVal :=
  fun p =>
    let (w, r) := fetchJson H (world p) url in
    (r, withWorld w (EvFetch url) p).

(** Lines 15-33: the process right after start-up. *)
Definition startup (e : Env) (w : World H) : P :=
  let keys := collectKeys e in
  {| env := e; apiKeys := keys; currentApiKeyIndex := 0;
     genAI := nth 0 keys "";
     world := w;
     trace := if (List.length keys =? 0)%nat
              then [EvConsole LogNoKeyWarning; EvConsole LogNoKeyHint]
              else [] |}.

(** Lines 36-42. *)
Definition switchApiKey : M P unit :=
  fun p =>
    if (1 <? List.length (apiKeys p))%nat then
      let i := (currentApiKeyIndex p + 1) mod List.length (apiKeys p) in
      (Returned tt, withEvent (EvConsole (LogSwitched (i + 1))) (withKey i p))
    else (Returned tt, p).

Definition respond (code : nat) (b : Body) : M P Response :=
  ret {| status := code; body := b |}.

(** Lines 65-75: the construction fallback chain. *)
Definition pickModel : M P ModelHandle :=
  tryCatch (getModel "gemini-2.5-flash") (fun _ =>
    tryCatch (getModel "gemini-2.5-pro") (fun _ =>
      getModel "gemini-2.0-flash")).

(** Lines 78-90. *)
Definition openChat (model : ModelHandle) (history : JsVal) : M P ChatSession :=
  if truthy history && lengthGtZero history then
    formatted <- liftO (formattedHistory history) ;;
    startChatM model (Some formatted)
  else startChatM model None.

(** Lines 46-100: the [try] block, on the parsed JSON object [req.body]. *)
Definition chatTry (reqBody : list (string * JsVal)) : M P Response :=
  let message := lookupField "message" reqBody in
  let history := match lookupField "history" reqBody with
                 | JUndefined => JArr []
                 | h => h
                 end in
  if negb (truthy message) then
    respond 400 (Failure "Message is required" None)
  else
    p <- getState ;;
    if (List.length (apiKeys p) =? 0)%nat then
      respond 500
        (Failure "API key not configured. Please set GEMINI_API_KEY in server/.env file"
                 None)
    else
      model <- pickModel ;;
      chat <- openChat model history ;;
      text <- sendMessageM chat message ;;
      respond 200 (ChatReply text).

(** Lines 116-133: the retry.  [Some r] is the [return res.json(...)] of
    line 126; [None] falls through to line 135.

    Line 122 reads the identifier [message].  Its only declaration is the
    [const] of line 47, whose scope is the [try] block; no enclosing scope
    of the [catch] block binds the name, so evaluating the argument throws
    a ReferenceError before [sendMessage] is invoked. *)
Definition retryAttempt : M P (option Response) :=
  switchApiKey ;;
  retryModel <- getModel "gemini-2.5-flash" ;;
  retryChat <- startChatM retryModel None ;;
  message <- throw (referenceError "message") ;;
  retryText <- sendMessageM retryChat message ;;
  r <- respond 200 (ChatReply retryText) ;;
  ret (Some r).

Definition retryWithNextKey : M P (option Response) :=
  tryCatch retryAttempt
    (fun retryError =>
       consoleLog (LogRetryFailed retryError) ;;
       ret None).

Definition retryEligible (error : Error) : bool :=
  includes (message error) "quota" || includes (message error) "429"
  || includes (message error) "API_KEY".

(** Lines 101-140: the [catch] block. *)
Definition chatCatch (error : Error) : M P Response :=
  consoleLog (LogErrorDetails error) ;;
  consoleLog (LogErrorMessage (message error)) ;;
  consoleLog (LogErrorStack error) ;;
  p <- getState ;;
  retried <- (if retryEligible error && (1 <? List.length (apiKeys p))%nat
              then retryWithNextKey
              else ret None) ;;
  match retried with
  | Some r => ret r
  | None =>
      respond 500 (Failure (errorMessage error) (Some (message error)))
  end.

(** [app.post('/api/chat', ...)] *)
Definition chatHandler (reqBody : list (string * JsVal)) : M P Response :=
  tryCatch (chatTry reqBody) chatCatch.

Definition modelsUrl : string :=
  "https://generativelanguage.googleapis.com/v1/models?key=".

(** [app.get('/api/models', ...)], lines 144-168. *)
Definition modelsHandler : M P Response :=
  tryCatch
    (p <- getState ;;
     match GEMINI_API_KEY (env p) with
     | Some key =>
         if key =? "" then respond 500 (Failure "API key not configured" None)
         else
           data <- fetchJsonM (modelsUrl ++ key) ;;
           models <- liftO (getProp data "models") ;;
           respond 200 (ModelList (jsOr models (JArr [])))
     | None => respond 500 (Failure "API key not configured" None)
     end)
    (fun error =>
       respond 500 (Failure "Failed to fetch models" (Some (message error)))).

(** [app.get('/api/health', ...)] *)
Definition healthHandler : M P Response := respond 200 HealthOk.

Inductive Request : Type :=
| PostChat (reqBody : list (string * JsVal))
| GetModels
| GetHealth.

Definition handle (r : Request) : M P Response :=
  match r with
  | PostChat reqBody => chatHandler reqBody
  | GetModels => modelsHandler
  | GetHealth => healthHandler
  end.

(** The process after serving the requests one after the other. *)
Fixpoint serve (rs : list Request) (p : P) : P :=
  match rs with
  | [] => p
  | r :: rest => serve rest (snd (handle r p))
  end.

End Server.


(** ** Two concrete backends, used to run the handlers *)

(** The first key is out of quota; any other key is answered. *)
Definition quotaHost : Host := {|
  World := unit;
  getGenerativeModel := fun w _ _ => (w, Returned tt);
  startChat := fun w _ _ => (w, Returned tt);
  sendMessage := fun w c _ =>
    (w, if mh_key (cs_model c) =? "key-1"
        then Thrown (mkError "[429 Too Many Requests] quota exceeded")
        else Returned "pong");
  fetchJson := fun w _ =>
    (w, Returned (JObj [("models", JArr [JStr "models/gemini-2.5-flash"])]));
  coerceGtZero := fun _ => false
|}.

(** Nothing can be constructed: every call of the client library throws. *)
Definition downHost : Host := {|
  World := unit;
  getGenerativeModel := fun w _ _ => (w, Thrown (mkError "model unavailable"));
  startChat := fun w _ _ => (w, Thrown (mkError "session unavailable"));
  sendMessage := fun w _ _ => (w, Thrown (mkError "fetch failed"));
  fetchJson := fun w _ => (w, Thrown (mkError "fetch failed"));
  coerceGtZero := fun _ => false
|}.

Definition twoKeys : Env :=
  {| GEMINI_API_KEY := Some "key-1"; GEMINI_API_KEY_2 := Some "key-2" |}.
Definition oneKey : Env :=
  {| GEMINI_API_KEY := Some "key-1"; GEMINI_API_KEY_2 := None |}.
Definition secondKeyOnly : Env :=
  {| GEMINI_API_KEY := None; GEMINI_API_KEY_2 := Some "key-2" |}.
Definition noKeys : Env :=
  {| GEMINI_API_KEY := None; GEMINI_API_KEY_2 := None |}.

(** ** The specification's vocabulary *)

(** [needle] occurs in [s], character for character. *)
Definition Substring (needle s : string) : Prop :=
  exists pre post, s = pre ++ needle ++ post.

Inductive ErrorClass : Type :=
| InvalidCredentialError
| QuotaExceededError
| ContentBlockedError
| UnknownBackendError.

(** The user-facing text of each class, the [error] field of a failure. *)
Definition humanReadable (c : ErrorClass) : string :=
  match c with
  | InvalidCredentialError => msgApiKey
  | QuotaExceededError => msgQuota
  | ContentBlockedError => msgSafety
  | UnknownBackendError => msgDefault
  end.

(** The ordered match table of the specification. *)
Inductive Classified (m : string) : ErrorClass -> Prop :=
| ClassCredential :
    Substring "API_KEY" m -> Classified m InvalidCredentialError
| ClassQuota :
    ~ Substring "API_KEY" m ->
    Substring "quota" m \/ Substring "429" m ->
    Classified m QuotaExceededError
| ClassBlocked :
    ~ Substring "API_KEY" m ->
    ~ Substring "quota" m -> ~ Substring "429" m ->
    Substring "safety" m ->
    Classified m ContentBlockedError
| ClassUnknown :
    ~ Substring "API_KEY" m ->
    ~ Substring "quota" m -> ~ Substring "429" m ->
    ~ Substring "safety" m ->
    Classified m UnknownBackendError.




Definition blank (s : string) : bool := trim s =? "".

Fixpoint allWhiteSpace (s : string) : bool :=
  match s with
  | EmptyString => true
  | String c s' => isWhiteSpace c && allWhiteSpace s'
  end.


(** The text a turn of any shape carries: [content], else [text], else the
    empty string. *)
Definition selectedText (msg : JsVal) : JsVal :=
  match msg with
  | JObj fields =>
      jsOr (jsOr (lookupField "content" fields) (lookupField "text" fields))
           (JStr "")
  | _ => JStr ""
  end.

(** Turns on which formatting goes through: anything but [null] whose
    selected text is a string. *)
Definition stringTurn (msg : JsVal) : bool :=
  match msg with
  | JUndefined | JNull => false
  | _ => match selectedText msg with
         | JStr _ => true
         | _ => false
         end
  end.

(** The events a run added to the trace. *)
Definition eventsSince {W} (before after : Proc W) : list Event :=
  skipn (List.length (trace before)) (trace after).

Definition validCursor {W} (p : Proc W) : Prop :=
  currentApiKeyIndex p < Nat.max 1 (List.length (apiKeys p)).

(** Sample inputs. *)
Definition hiBody : list (string * JsVal) := [("message", JStr "hi")].
Definition quotaError : Error :=
  mkError "[429 Too Many Requests] quota exceeded".


(** The process after lines 102-104 have logged the caught error. *)
Definition logged {W} (error : Error) (p : Proc W) : Proc W :=
  withEvent (EvConsole (LogErrorStack error))
    (withEvent (EvConsole (LogErrorMessage (message error)))
       (withEvent (EvConsole (LogErrorDetails error)) p)).

(** The response of line 135 for the error caught at line 101. *)
Definition failureOf (error : Error) : Response :=
  {| status := 500;
     body := Failure (errorMessage error) (Some (message error)) |}.

(** The role a turn of any shape is given. *)
Definition roleOf (msg : JsVal) : string :=
  match msg with
  | JObj fields =>
      if strictEqStr (lookupField "role" fields) "user" then "user" else "model"
  | _ => "model"
  end.

Definition textIsString (c : Content) : Prop :=
  exists s rest, parts c = {| text := JStr s |} :: rest.

(** The trace grew by events that all satisfy [Q]. *)
Definition emitsOnly {W} (Q : Event -> Prop) (p p' : Proc W) : Prop :=
  exists evs, trace p' = (trace p ++ evs)%list /\ Forall Q evs.


(** A run of [m] relates the store before to the store after by [R]. *)
Definition stable {S A} (R : S -> S -> Prop) (m : M S A) : Prop :=
  forall s, R s (snd (m s)).

(** Configuration, cursor and client are left alone. *)
Definition keepsClient {W} (p p' : Proc W) : Prop :=
  env p' = env p /\ apiKeys p' = apiKeys p /\
  currentApiKeyIndex p' = currentApiKeyIndex p /\ genAI p' = genAI p.

(** Configuration is left alone and a valid cursor stays valid. *)
Definition keepsPool {W} (p p' : Proc W) : Prop :=
  env p' = env p /\ apiKeys p' = apiKeys p /\
  (validCursor p -> validCursor p').

(** ** Vocabulary for the remaining code paths *)

(** The key under which a call of the client library is made. *)
Definition usesKey (k : string) (ev : Event) : Prop :=
  match ev with
  | EvGetModel key _ => key = k
  | EvStartChat m _ => mh_key m = k
  | EvSendMessage c _ => mh_key (cs_model c) = k
  | EvFetch _ => False
  | EvConsole _ => False
  end.

(** The model names of lines 67, 70 and 73, in the order they are tried. *)
Definition modelPreference : list string :=
  ["gemini-2.5-flash"; "gemini-2.5-pro"; "gemini-2.0-flash"].

(** [switchApiKey()] called [n] times in a row. *)
Definition switchTimes (H : Host) (n : nat) (p : Proc (World H))
  : Proc (World H) :=
  Nat.iter n (fun q => snd (switchApiKey H q)) p.

(** The client is the one built for the key under the cursor. *)
Definition clientInSync {W} (p : Proc W) : Prop :=
  genAI p = nth (currentApiKeyIndex p) (apiKeys p) "".

(** The pool is left alone and a client in sync stays in sync. *)
Definition keepsSync {W} (p p' : Proc W) : Prop :=
  apiKeys p' = apiKeys p /\ (clientInSync p -> clientInSync p').

Definition notFetch (ev : Event) : Prop :=
  match ev with
  | EvFetch _ => False
  | _ => True
  end.

(** The [filter(Boolean)] of line 18 on one variable. *)
Definition keyList (v : option string) : list string :=
  match v with
  | Some s => if s =? "" then [] else [s]
  | None => []
  end.

(** The response of lines 57-60. *)
Definition configFailure : Response :=
  {| status := 500;
     body := Failure
       "API key not configured. Please set GEMINI_API_KEY in server/.env file"
       None |}.

Definition healthResponse : Response := {| status := 200; body := HealthOk |}.

Definition isChat (r : Request) : bool :=
  match r with
  | PostChat _ => true
  | _ => false
  end.

(** * Properties *)

(** ** Substring search *)

Lemma startsWith_spec s needle :
  startsWith s needle = true <-> exists post, s = needle ++ post.
Proof.
  revert s. induction needle as [|c needle IH]; intros s; simpl.
  - split; [intros _; now exists s | intros _; now destruct s].
  - destruct s as [|d s]; simpl.
    + split; [discriminate | intros [post Hp]; discriminate].
    + rewrite andb_true_iff, Ascii.eqb_eq, IH. split.
      * intros [-> [post ->]]. now exists post.
      * intros [post Hp]. injection Hp as -> ->. split; [reflexivity | now exists post].
Qed.

Lemma includes_cons d s needle :
  includes (String d s) needle = startsWith (String d s) needle || includes s needle.
Proof. reflexivity. Qed.

Lemma includes_nil needle : includes "" needle = startsWith "" needle.
Proof. unfold includes. apply orb_false_r. Qed.

Lemma includes_spec s needle :
  includes s needle = true <-> Substring needle s.
Proof.
  unfold Substring. induction s as [|d s IH].
  - rewrite includes_nil, startsWith_spec. split.
    + intros [post Hp]. now exists "", post.
    + intros [[|c pre] [post Hp]]; simpl in Hp; [now exists post | discriminate].
  - rewrite includes_cons, orb_true_iff, IH, startsWith_spec. split.
    + intros [[post Hp] | [pre [post Hp]]].
      * now exists "", post.
      * exists (String d pre), post. simpl. now rewrite Hp.
    + intros [[|c pre] [post Hp]]; simpl in Hp.
      * left. now exists post.
      * right. injection Hp as _ ->. now exists pre, post.
Qed.

Lemma includes_false s needle :
  includes s needle = false <-> ~ Substring needle s.
Proof.
  rewrite <- includes_spec. destruct (includes s needle); split; congruence.
Qed.

(** ** Trimming *)

Lemma trimEnd_empty s : trimEnd s = "" <-> allWhiteSpace s = true.
Proof.
  induction s as [|c s IH]; [now split|].
  cbn [trimEnd allWhiteSpace]. rewrite andb_true_iff, <- IH.
  destruct (trimEnd s) as [|d t].
  - destruct (isWhiteSpace c); intuition congruence.
  - split; [discriminate | intros [_ Hs]; discriminate].
Qed.

Lemma trimStart_head s :
  match trimStart s with
  | EmptyString => allWhiteSpace s = true
  | String c _ => isWhiteSpace c = false /\ allWhiteSpace s = false
  end.
Proof.
  induction s as [|c s IH]; [reflexivity|].
  cbn [trimStart allWhiteSpace]. destruct (isWhiteSpace c) eqn:Hc.
  - destruct (trimStart s); [exact IH | now destruct IH].
  - now split.
Qed.

(** A string is blank exactly when it consists of white space only. *)
Lemma blank_spec s : blank s = allWhiteSpace s.
Proof.
  unfold blank, trim. pose proof (trimStart_head s) as Hs.
  destruct (trimStart s) as [|c t] eqn:Ht.
  - now rewrite Hs.
  - destruct Hs as [Hc ->]. apply String.eqb_neq. intros He.
    apply trimEnd_empty in He. cbn [allWhiteSpace] in He.
    now rewrite Hc in He.
Qed.

(** ** The code's classification against the ordered match table *)

Lemma errorMessage_classified e :
  exists c, Classified (message e) c /\ errorMessage e = humanReadable c.
Proof.
  unfold errorMessage.
  destruct (includes (message e) "API_KEY") eqn:Hk.
  { exists InvalidCredentialError. split; [|reflexivity].
    constructor. now apply includes_spec. }
  apply includes_false in Hk.
  destruct (includes (message e) "quota") eqn:Hq.
  { exists QuotaExceededError. split; [|reflexivity].
    apply ClassQuota; [assumption | left; now apply includes_spec]. }
  destruct (includes (message e) "429") eqn:H4.
  { exists QuotaExceededError. split; [|reflexivity].
    apply ClassQuota; [assumption | right; now apply includes_spec]. }
  apply includes_false in Hq, H4. simpl.
  destruct (includes (message e) "safety") eqn:Hs.
  { exists ContentBlockedError. split; [|reflexivity].
    apply ClassBlocked; try assumption. now apply includes_spec. }
  apply includes_false in Hs.
  exists UnknownBackendError. split; [|reflexivity].
  now apply ClassUnknown.
Qed.

Lemma Classified_functional m c c' :
  Classified m c -> Classified m c' -> c = c'.
Proof.
  intros Hc Hc'. destruct Hc; destruct Hc'; try reflexivity; tauto.
Qed.

Lemma retryEligible_spec e :
  retryEligible e = true <->
  Classified (message e) InvalidCredentialError \/
  Classified (message e) QuotaExceededError.
Proof.
  unfold retryEligible. rewrite !orb_true_iff, !includes_spec. split.
  - intros Hc.
    destruct (includes (message e) "API_KEY") eqn:Hk.
    + left. constructor. now apply includes_spec.
    + apply includes_false in Hk. right. apply ClassQuota; tauto.
  - intros [Hc | Hc]; inversion Hc; tauto.
Qed.

(** ** Stability of monadic programs *)

Section Stability.

Context {S : Type} (R : S -> S -> Prop).
Hypothesis R_refl : forall s, R s s.
Hypothesis R_trans : forall a b c, R a b -> R b c -> R a c.

Lemma stable_ret {A} (a : A) : stable R (ret a).
Proof. intros s. apply R_refl. Qed.

Lemma stable_throw {A} e : stable R (@throw S A e).
Proof. intros s. apply R_refl. Qed.

Lemma stable_liftO {A} (o : Outcome A) : stable R (liftO o).
Proof. intros s. apply R_refl. Qed.

Lemma stable_getState : stable R (@getState S).
Proof. intros s. apply R_refl. Qed.

Lemma stable_bind {A B} (m : M S A) (k : A -> M S B) :
  stable R m -> (forall a, stable R (k a)) -> stable R (bind m k).
Proof.
  intros Hm Hk s. unfold bind. specialize (Hm s).
  destruct (m s) as [[a | e] s']; simpl in *.
  - eapply R_trans; [exact Hm | apply Hk].
  - exact Hm.
Qed.

Lemma stable_tryCatch {A} (m : M S A) (h : Error -> M S A) :
  stable R m -> (forall e, stable R (h e)) -> stable R (tryCatch m h).
Proof.
  intros Hm Hh s. unfold tryCatch. specialize (Hm s).
  destruct (m s) as [[a | e] s']; simpl in *.
  - exact Hm.
  - eapply R_trans; [exact Hm | apply Hh].
Qed.

End Stability.

Lemma stable_weaken {S A} (R R' : S -> S -> Prop) (m : M S A) :
  (forall a b, R a b -> R' a b) -> stable R m -> stable R' m.
Proof. intros HR Hm s. apply HR, Hm. Qed.

Lemma keepsClient_refl {W} (p : Proc W) : keepsClient p p.
Proof. repeat split. Qed.

Lemma keepsClient_trans {W} (a b c : Proc W) :
  keepsClient a b -> keepsClient b c -> keepsClient a c.
Proof. unfold keepsClient. intuition congruence. Qed.

Lemma keepsPool_refl {W} (p : Proc W) : keepsPool p p.
Proof. repeat split. auto. Qed.

Lemma keepsPool_trans {W} (a b c : Proc W) :
  keepsPool a b -> keepsPool b c -> keepsPool a c.
Proof. unfold keepsPool. intuition congruence. Qed.

Lemma keepsClient_keepsPool {W} (a b : Proc W) :
  keepsClient a b -> keepsPool a b.
Proof.
  unfold keepsClient, keepsPool, validCursor. intuition congruence.
Qed.

Create HintDb client discriminated.
Create HintDb pool discriminated.

Ltac stable_client :=
  repeat first
    [ solve [auto with client nocore]
    | apply (stable_ret _ keepsClient_refl)
    | apply (stable_throw _ keepsClient_refl)
    | apply (stable_liftO _ keepsClient_refl)
    | apply (stable_getState _ keepsClient_refl)
    | apply (stable_bind _ keepsClient_trans); [| intro]
    | apply (stable_tryCatch _ keepsClient_trans); [| intro] ].

Ltac stable_pool :=
  repeat first
    [ solve [auto with pool nocore]
    | apply (stable_ret _ keepsPool_refl)
    | apply (stable_throw _ keepsPool_refl)
    | apply (stable_liftO _ keepsPool_refl)
    | apply (stable_getState _ keepsPool_refl)
    | apply (stable_bind _ keepsPool_trans); [| intro]
    | apply (stable_tryCatch _ keepsPool_trans); [| intro] ].

Ltac proc_simpl :=
  cbn [trace currentApiKeyIndex genAI apiKeys env world
       withWorld withEvent withKey].

Section ServerFacts.

Variable H : Host.

Local Abbreviation P := (Proc (World H)).

Lemma consoleLog_client line : stable keepsClient (consoleLog H line).
Proof. intros p. repeat split. Qed.

Lemma getModel_client model : stable keepsClient (getModel H model).
Proof.
  intros p. unfold getModel.
  destruct (getGenerativeModel H (world p) (genAI p) model) as [w [u | e]];
    repeat split.
Qed.

Lemma startChatM_client m h : stable keepsClient (startChatM H m h).
Proof.
  intros p. unfold startChatM.
  destruct (startChat H (world p) m h) as [w [u | e]]; repeat split.
Qed.

Lemma sendMessageM_client c msg : stable keepsClient (sendMessageM H c msg).
Proof.
  intros p. unfold sendMessageM.
  destruct (sendMessage H (world p) c msg) as [w r]; repeat split.
Qed.

Lemma fetchJsonM_client url : stable keepsClient (fetchJsonM H url).
Proof.
  intros p. unfold fetchJsonM.
  destruct (fetchJson H (world p) url) as [w r]; repeat split.
Qed.

Hint Resolve consoleLog_client getModel_client startChatM_client
  sendMessageM_client fetchJsonM_client : client.

Lemma pickModel_client : stable keepsClient (pickModel H).
Proof. unfold pickModel. stable_client. Qed.

Lemma openChat_client model history :
  stable keepsClient (openChat H model history).
Proof.
  unfold openChat.
  destruct (truthy history && lengthGtZero H history); stable_client.
Qed.

Hint Resolve pickModel_client openChat_client : client.

Lemma chatTry_client reqBody : stable keepsClient (chatTry H reqBody).
Proof.
  unfold chatTry, respond.
  destruct (negb (truthy (lookupField "message" reqBody))); stable_client.
  destruct (List.length (apiKeys a) =? 0)%nat; stable_client.
Qed.

Lemma switchApiKey_pool : stable keepsPool (switchApiKey H).
Proof.
  intros p. unfold switchApiKey.
  destruct (1 <? List.length (apiKeys p))%nat eqn:Hlen.
  - apply Nat.ltb_lt in Hlen. repeat split. intros _.
    unfold validCursor, withEvent, withWorld, withKey.
    cbn [currentApiKeyIndex apiKeys].
    eapply Nat.lt_le_trans; [apply Nat.mod_upper_bound; lia | apply Nat.le_max_r].
  - apply keepsPool_refl.
Qed.

Lemma pool_of_client {A} (m : M P A) : stable keepsClient m -> stable keepsPool m.
Proof. apply stable_weaken. apply keepsClient_keepsPool. Qed.

Hint Resolve switchApiKey_pool : pool.
Hint Extern 1 (stable keepsPool _) =>
  (apply pool_of_client; solve [auto with client nocore]) : pool.

Lemma retryAttempt_pool : stable keepsPool (retryAttempt H).
Proof. unfold retryAttempt, respond. stable_pool. Qed.

Hint Resolve retryAttempt_pool chatTry_client : pool client.

Lemma chatCatch_pool e : stable keepsPool (chatCatch H e).
Proof.
  unfold chatCatch, retryWithNextKey, respond. stable_pool.
  - destruct (retryEligible e && (1 <? List.length (apiKeys a2))%nat);
      stable_pool.
  - destruct a3; stable_pool.
Qed.

Hint Resolve chatCatch_pool : pool.

Lemma handle_pool r : stable keepsPool (handle H r).
Proof.
  destruct r; simpl.
  - unfold chatHandler. stable_pool.
  - unfold modelsHandler, respond. stable_pool.
    destruct (GEMINI_API_KEY (env a)) as [key|]; stable_pool.
    destruct (key =? ""); stable_pool.
  - unfold healthHandler, respond. stable_pool.
Qed.

Lemma serve_pool rs p : keepsPool p (serve H rs p).
Proof.
  revert p. induction rs as [|r rs IH]; intros p; simpl.
  - apply keepsPool_refl.
  - eapply keepsPool_trans; [apply handle_pool | apply IH].
Qed.

(** *** The [catch] block, case by case *)

Lemma chatHandler_thrown reqBody p e p1 :
  chatTry H reqBody p = (Thrown e, p1) ->
  chatHandler H reqBody p = chatCatch H e p1.
Proof. intros Ht. unfold chatHandler, tryCatch. now rewrite Ht. Qed.

Lemma chatHandler_returned reqBody p r p1 :
  chatTry H reqBody p = (Returned r, p1) ->
  chatHandler H reqBody p = (Returned r, p1).
Proof. intros Ht. unfold chatHandler, tryCatch. now rewrite Ht. Qed.

Lemma chatCatch_unfold e p :
  chatCatch H e p =
  (if retryEligible e && (1 <? List.length (apiKeys p))%nat
   then match retryAttempt H (logged e p) with
        | (Returned (Some r), p') => (Returned r, p')
        | (Returned None, p') => (Returned (failureOf e), p')
        | (Thrown retryError, p') =>
            (Returned (failureOf e),
             withEvent (EvConsole (LogRetryFailed retryError)) p')
        end
   else (Returned (failureOf e), logged e p)).
Proof.
  unfold chatCatch, bind, consoleLog, getState, retryWithNextKey, tryCatch,
    respond, ret.
  change (apiKeys (withEvent _ (withEvent _ (withEvent _ p)))) with (apiKeys p).
  fold (logged e p).
  destruct (retryEligible e && (1 <? List.length (apiKeys p))%nat);
    [|reflexivity].
  destruct (retryAttempt H (logged e p)) as [[[r|] | re] p']; reflexivity.
Qed.

(** The retry never completes: it stops at the unbound [message] at the
    latest, after the switch and the construction of the model handle. *)
Lemma retryAttempt_thrown p :
  (1 < List.length (apiKeys p))%nat ->
  let i := (currentApiKeyIndex p + 1) mod List.length (apiKeys p) in
  let key := nth i (apiKeys p) "" in
  exists retryError p' evs,
    retryAttempt H p = (Thrown retryError, p') /\
    trace p' = (trace p ++ EvConsole (LogSwitched (i + 1))
                        :: EvGetModel key "gemini-2.5-flash" :: evs)%list /\
    Forall (fun ev => exists h, ev = EvStartChat
              {| mh_key := key; mh_model := "gemini-2.5-flash" |} h /\ h = None)
           evs /\
    currentApiKeyIndex p' = i /\ genAI p' = key /\
    apiKeys p' = apiKeys p /\ env p' = env p.
Proof.
  intros Hlen i key. apply Nat.ltb_lt in Hlen.
  unfold retryAttempt, bind, switchApiKey. rewrite Hlen. fold i.
  unfold getModel. cbn [genAI withEvent withWorld withKey world]. fold key.
  destruct (getGenerativeModel H (world p) key "gemini-2.5-flash")
    as [w [u | e1]].
  - unfold startChatM. cbn [world withWorld].
    destruct (startChat H w {| mh_key := key; mh_model := "gemini-2.5-flash" |} None)
      as [w' [u' | e2]].
    + eexists _, _, [_]. unfold throw. split; [reflexivity|].
      proc_simpl. rewrite <- !app_assoc. simpl.
      repeat split. constructor; [|constructor]. now eexists.
    + eexists _, _, [_]. split; [reflexivity|].
      proc_simpl. rewrite <- !app_assoc. simpl.
      repeat split. constructor; [|constructor]. now eexists.
  - eexists _, _, []. split; [reflexivity|].
    proc_simpl. rewrite <- !app_assoc. simpl. repeat split. constructor.
Qed.

Lemma trace_logged e (p : P) :
  trace (logged e p) =
  (trace p ++ [EvConsole (LogErrorDetails e);
               EvConsole (LogErrorMessage (message e));
               EvConsole (LogErrorStack e)])%list.
Proof. unfold logged, withEvent, withWorld. simpl. now rewrite <- !app_assoc. Qed.

Lemma eventsSince_app (p q : P) evs :
  trace q = (trace p ++ evs)%list -> eventsSince p q = evs.
Proof.
  intros Ht. unfold eventsSince. rewrite Ht.
  rewrite skipn_app, Nat.sub_diag, skipn_all. reflexivity.
Qed.

(** Whatever the backend does, once the [try] block has thrown the
    request ends in the failure built from the error it threw. *)
Lemma chatCatch_fails e p :
  fst (chatCatch H e p) = Returned (failureOf e).
Proof.
  rewrite chatCatch_unfold.
  destruct (retryEligible e && (1 <? List.length (apiKeys p))%nat) eqn:Hc;
    [|reflexivity].
  apply andb_true_iff in Hc. destruct Hc as [_ Hlen]. apply Nat.ltb_lt in Hlen.
  destruct (retryAttempt_thrown (logged e p) Hlen) as (re & p' & evs & Hr & _).
  now rewrite Hr.
Qed.

End ServerFacts.

(** ** The chat handler's failure path *)

Section FailurePath.

Variable H : Host.

(** C1: every error caught by the chat handler is classified by
    case-sensitive substring search on its raw message, first match wins:
    "API_KEY" gives InvalidCredentialError, else "quota" or "429" gives
    QuotaExceededError, else "safety" gives ContentBlockedError, else
    UnknownBackendError; the class is unique and its text is the [error]
    of the failure that is reported. *)
Theorem classification_first_match reqBody p e p1 r p2 :
  chatTry H reqBody p = (Thrown e, p1) ->
  chatHandler H reqBody p = (Returned r, p2) ->
  exists c,
    Classified (message e) c /\
    (forall c', Classified (message e) c' -> c' = c) /\
    errorMessage e = humanReadable c /\
    (forall err det, body r = Failure err det -> err = humanReadable c).
Proof.
  intros Ht Hh. rewrite (chatHandler_thrown H _ _ _ _ Ht) in Hh.
  pose proof (chatCatch_fails H e p1) as Hf. rewrite Hh in Hf. simpl in Hf.
  injection Hf as ->.
  destruct (errorMessage_classified e) as [c [Hc He]].
  exists c. repeat split; try assumption.
  - intros c' Hc'. eapply Classified_functional; eassumption.
  - simpl. intros err det [= <- _]. exact He.
Qed.

(** C2: after a failed first attempt, a retry (any further call of the
    client library) happens exactly when the error classifies as
    InvalidCredentialError or QuotaExceededError and the pool holds more
    than one key; with exactly one key a quota error is answered at once
    with the failure, and nothing but the three log lines happens. *)
Theorem retry_guard reqBody p e p1 :
  chatTry H reqBody p = (Thrown e, p1) ->
  let out := chatHandler H reqBody p in
  (existsb isBackendCall (eventsSince p1 (snd out)) = true <->
   (Classified (message e) InvalidCredentialError \/
    Classified (message e) QuotaExceededError) /\
   1 < List.length (apiKeys p))
  /\
  (List.length (apiKeys p) = 1 ->
   Classified (message e) QuotaExceededError ->
   fst out = Returned {| status := 500;
                         body := Failure (humanReadable QuotaExceededError)
                                         (Some (message e)) |} /\
   eventsSince p1 (snd out) = [EvConsole (LogErrorDetails e);
                               EvConsole (LogErrorMessage (message e));
                               EvConsole (LogErrorStack e)]).
Proof.
  intros Ht out. subst out.
  assert (Hkeys : apiKeys p1 = apiKeys p).
  { pose proof (chatTry_client H reqBody p) as Hc. rewrite Ht in Hc.
    apply Hc. }
  rewrite (chatHandler_thrown H _ _ _ _ Ht), chatCatch_unfold, Hkeys.
  rewrite <- retryEligible_spec.
  destruct (retryEligible e) eqn:He; simpl andb.
  - destruct (1 <? List.length (apiKeys p))%nat eqn:Hlen.
    + apply Nat.ltb_lt in Hlen.
      assert (Hlen1 : 1 < List.length (apiKeys (logged e p1)))
        by (unfold logged; proc_simpl; now rewrite Hkeys).
      destruct (retryAttempt_thrown H (logged e p1) Hlen1)
        as (re & p' & evs & Hr & Htr & _).
      rewrite Hr. cbn [snd fst]. split.
      * split; [intros _; now split|intros _].
        erewrite eventsSince_app.
        2:{ unfold withEvent, withWorld. cbn [trace]. rewrite Htr, trace_logged.
            rewrite <- !app_assoc. reflexivity. }
        simpl. reflexivity.
      * intros Hone. lia.
    + apply Nat.ltb_ge in Hlen. cbn [snd fst]. split.
      * rewrite (eventsSince_app H p1 _ _ (trace_logged H e p1)). simpl.
        split; [discriminate | intros [_ Hgt]; lia].
      * intros _ Hq. split.
        -- unfold failureOf. destruct (errorMessage_classified e) as [c [Hc ->]].
           now rewrite (Classified_functional _ _ _ Hc Hq).
        -- apply (eventsSince_app H), trace_logged.
  - cbn [snd fst]. split.
    + rewrite (eventsSince_app H p1 _ _ (trace_logged H e p1)). simpl.
      split; [discriminate | intros [Hf _]; discriminate].
    + intros _ Hq. split.
      * unfold failureOf. destruct (errorMessage_classified e) as [c [Hc ->]].
        now rewrite (Classified_functional _ _ _ Hc Hq).
      * apply (eventsSince_app H), trace_logged.
Qed.

(** C4: when the retry itself throws, the caller receives the failure of
    the original attempt: status 500, the classification of the original
    error as [error], its raw message as [details]; the retry's error
    only reaches the console. *)
Theorem retry_failure_reports_original reqBody p e p1 retryError p2 :
  chatTry H reqBody p = (Thrown e, p1) ->
  (Classified (message e) InvalidCredentialError \/
   Classified (message e) QuotaExceededError) ->
  1 < List.length (apiKeys p) ->
  retryAttempt H (logged e p1) = (Thrown retryError, p2) ->
  exists c,
    Classified (message e) c /\
    chatHandler H reqBody p =
    (Returned {| status := 500;
                 body := Failure (humanReadable c) (Some (message e)) |},
     withEvent (EvConsole (LogRetryFailed retryError)) p2) /\
    success {| status := 500;
               body := Failure (humanReadable c) (Some (message e)) |} = false.
Proof.
  intros Ht Hc Hlen Hr.
  assert (Hkeys : apiKeys p1 = apiKeys p).
  { pose proof (chatTry_client H reqBody p) as Hk. rewrite Ht in Hk.
    apply Hk. }
  destruct (errorMessage_classified e) as [c [Hcl He]].
  exists c. split; [assumption|]. split; [|reflexivity].
  rewrite (chatHandler_thrown H _ _ _ _ Ht), chatCatch_unfold, Hkeys.
  apply retryEligible_spec in Hc. rewrite Hc.
  apply Nat.ltb_lt in Hlen. rewrite Hlen. simpl andb.
  rewrite Hr. unfold failureOf. now rewrite He.
Qed.

End FailurePath.

Lemma quotaError_class : Classified (message quotaError) QuotaExceededError.
Proof.
  apply ClassQuota.
  - now apply includes_false.
  - left. now apply includes_spec.
Defined.

Lemma classification_first_match_witness :
  exists c,
    Classified (message quotaError) c /\
    (forall c', Classified (message quotaError) c' -> c' = c) /\
    errorMessage quotaError = humanReadable c /\
    (forall err det,
       body (failureOf quotaError) = Failure err det -> err = humanReadable c).
Proof.
  exact (classification_first_match quotaHost hiBody
           (startup quotaHost oneKey tt) quotaError
           (snd (chatTry quotaHost hiBody (startup quotaHost oneKey tt)))
           (failureOf quotaError)
           (snd (chatHandler quotaHost hiBody (startup quotaHost oneKey tt)))
           eq_refl eq_refl).
Defined.

Lemma retry_guard_witness :
  fst (chatHandler quotaHost hiBody (startup quotaHost oneKey tt)) =
  Returned {| status := 500;
              body := Failure msgQuota (Some (message quotaError)) |} /\
  eventsSince (snd (chatTry quotaHost hiBody (startup quotaHost oneKey tt)))
              (snd (chatHandler quotaHost hiBody (startup quotaHost oneKey tt))) =
  [EvConsole (LogErrorDetails quotaError);
   EvConsole (LogErrorMessage (message quotaError));
   EvConsole (LogErrorStack quotaError)].
Proof.
  apply (proj2 (retry_guard quotaHost hiBody (startup quotaHost oneKey tt)
                  quotaError
                  (snd (chatTry quotaHost hiBody (startup quotaHost oneKey tt)))
                  eq_refl)).
  - reflexivity.
  - exact quotaError_class.
Defined.

Lemma retry_failure_reports_original_witness :
  exists c,
    Classified (message quotaError) c /\
    chatHandler quotaHost hiBody (startup quotaHost twoKeys tt) =
    (Returned {| status := 500;
                 body := Failure (humanReadable c) (Some (message quotaError)) |},
     withEvent (EvConsole (LogRetryFailed (referenceError "message")))
       (snd (retryAttempt quotaHost
               (logged quotaError
                  (snd (chatTry quotaHost hiBody
                          (startup quotaHost twoKeys tt))))))) /\
    success {| status := 500;
               body := Failure (humanReadable c) (Some (message quotaError)) |}
    = false.
Proof.
  apply (retry_failure_reports_original quotaHost hiBody
           (startup quotaHost twoKeys tt) quotaError
           (snd (chatTry quotaHost hiBody (startup quotaHost twoKeys tt)))
           (referenceError "message")).
  - reflexivity.
  - right. exact quotaError_class.
  - simpl. lia.
  - reflexivity.
Defined.

(** C3, on the input of the specification's retry scenario: two keys, the
    first attempt fails with a quota error, and a send under the second key
    would be answered with "pong".  The handler switches to the second key,
    builds the primary model and a session without history, and then stops
    at the unbound [message]: the answer is the failure of the first
    attempt, nothing is sent under the second key, and the cursor stays on
    the second key. *)
Theorem retry_never_resends :
  sendMessage quotaHost tt
    {| cs_model := {| mh_key := "key-2"; mh_model := "gemini-2.5-flash" |};
       cs_history := None |} (JStr "hi") = (tt, Returned "pong") /\
  fst (chatTry quotaHost hiBody (startup quotaHost twoKeys tt)) =
  Thrown quotaError /\
  fst (chatHandler quotaHost hiBody (startup quotaHost twoKeys tt)) =
  Returned {| status := 500;
              body := Failure msgQuota (Some (message quotaError)) |} /\
  eventsSince (snd (chatTry quotaHost hiBody (startup quotaHost twoKeys tt)))
              (snd (chatHandler quotaHost hiBody (startup quotaHost twoKeys tt))) =
  [EvConsole (LogErrorDetails quotaError);
   EvConsole (LogErrorMessage (message quotaError));
   EvConsole (LogErrorStack quotaError);
   EvConsole (LogSwitched 2);
   EvGetModel "key-2" "gemini-2.5-flash";
   EvStartChat {| mh_key := "key-2"; mh_model := "gemini-2.5-flash" |} None;
   EvConsole (LogRetryFailed (referenceError "message"))] /\
  currentApiKeyIndex
    (snd (chatHandler quotaHost hiBody (startup quotaHost twoKeys tt))) = 1 /\
  genAI (snd (chatHandler quotaHost hiBody (startup quotaHost twoKeys tt)))
  = "key-2".
Proof. repeat split. Qed.

(** ** Validation and configuration *)

Section FastFail.

Variable H : Host.


(** C6: with an empty credential pool, a request that carries a message
    is answered with status 500 and the configuration error, and the
    process is left as it was: no call of the client library is made. *)
Theorem empty_pool_fails_fast reqBody p :
  apiKeys p = [] ->
  truthy (lookupField "message" reqBody) = true ->
  chatHandler H reqBody p =
  (Returned {| status := 500;
               body := Failure
                 "API key not configured. Please set GEMINI_API_KEY in server/.env file"
                 None |}, p).
Proof.
  intros Hk Hm. unfold chatHandler, tryCatch, chatTry, bind, getState.
  rewrite Hm. cbn [negb]. now rewrite Hk.
Qed.

End FastFail.



Lemma empty_pool_fails_fast_witness :
  chatHandler quotaHost hiBody (startup quotaHost noKeys tt) =
  (Returned {| status := 500;
               body := Failure
                 "API key not configured. Please set GEMINI_API_KEY in server/.env file"
                 None |},
   startup quotaHost noKeys tt).
Proof.
  apply (empty_pool_fails_fast quotaHost hiBody (startup quotaHost noKeys tt));
    reflexivity.
Defined.

(** ** History sanitization *)




Lemma emitsOnly_refl {W} Q (p : Proc W) : emitsOnly Q p p.
Proof. exists []. split; [now rewrite app_nil_r | constructor]. Qed.

Lemma emitsOnly_trans {W} Q (a b c : Proc W) :
  emitsOnly Q a b -> emitsOnly Q b c -> emitsOnly Q a c.
Proof.
  intros [e1 [H1 Q1]] [e2 [H2 Q2]]. exists (e1 ++ e2)%list. split.
  - now rewrite H2, H1, app_assoc.
  - apply Forall_app. now split.
Qed.

Lemma emitsOnly_one {W} (Q : Event -> Prop) (p : Proc W) w ev :
  Q ev -> emitsOnly Q p (withWorld w ev p).
Proof. intros Hq. exists [ev]. split; [reflexivity | now constructor]. Qed.

Ltac stable_emits Q leaf :=
  repeat first
    [ leaf
    | apply (stable_ret _ (emitsOnly_refl Q))
    | apply (stable_throw _ (emitsOnly_refl Q))
    | apply (stable_liftO _ (emitsOnly_refl Q))
    | apply (stable_getState _ (emitsOnly_refl Q))
    | apply (stable_bind _ (emitsOnly_trans Q)); [| intro]
    | apply (stable_tryCatch _ (emitsOnly_trans Q)); [| intro] ].

Section History.

Variable H : Host.

Lemma getModel_emits (Q : Event -> Prop) model :
  (forall key, Q (EvGetModel key model)) -> stable (emitsOnly Q) (getModel H model).
Proof.
  intros Hq p. unfold getModel.
  destruct (getGenerativeModel H (world p) (genAI p) model) as [w [u | e]];
    apply emitsOnly_one, Hq.
Qed.

Lemma startChatM_emits (Q : Event -> Prop) m h :
  Q (EvStartChat m h) -> stable (emitsOnly Q) (startChatM H m h).
Proof.
  intros Hq p. unfold startChatM.
  destruct (startChat H (world p) m h) as [w [u | e]]; now apply emitsOnly_one.
Qed.

Lemma sendMessageM_emits (Q : Event -> Prop) c msg :
  Q (EvSendMessage c msg) -> stable (emitsOnly Q) (sendMessageM H c msg).
Proof.
  intros Hq p. unfold sendMessageM.
  destruct (sendMessage H (world p) c msg) as [w r]. now apply emitsOnly_one.
Qed.

Lemma pickModel_emits (Q : Event -> Prop) :
  (forall key model, Q (EvGetModel key model)) ->
  stable (emitsOnly Q) (pickModel H).
Proof.
  intros Hq. unfold pickModel.
  stable_emits Q ltac:(apply getModel_emits; intros key; apply Hq).
Qed.



End History.


(** *** Turns of any shape *)

Lemma formatTurn_value msg :
  (msg = JUndefined \/ msg = JNull -> exists e, formatTurn msg = Thrown e) /\
  (msg <> JUndefined -> msg <> JNull ->
   formatTurn msg =
   Returned {| role := roleOf msg; parts := [ {| text := selectedText msg |} ] |}).
Proof.
  split.
  - intros [-> | ->]; eexists; reflexivity.
  - intros Hu Hn. destruct msg; try contradiction; reflexivity.
Qed.

Lemma stringTurn_spec msg :
  stringTurn msg = true <->
  msg <> JUndefined /\ msg <> JNull /\ exists s, selectedText msg = JStr s.
Proof.
  unfold stringTurn. split.
  - intros Hs.
    destruct msg; try discriminate; repeat split; try discriminate;
      try (now eexists).
    destruct (selectedText (JObj fields)); try discriminate. now eexists.
  - intros (Hu & Hn & s & Hs).
    destruct msg; try contradiction; try reflexivity. now rewrite Hs.
Qed.

Lemma keepTurn_returns c :
  (exists b, keepTurn c = Returned b) <-> textIsString c.
Proof.
  unfold keepTurn, textIsString. destruct (parts c) as [|[v] rest].
  - split; [intros [b Hb]; discriminate | intros (s & r & Hs); discriminate].
  - cbn [text]. split.
    + intros [b Hb]. destruct v; try discriminate. now eexists _, _.
    + intros (s & r & [= -> _]). now eexists.
Qed.

Lemma filterO_returns cs :
  (exists fh, filterO keepTurn cs = Returned fh) <-> Forall textIsString cs.
Proof.
  induction cs as [|c cs IH].
  - split; [constructor | now exists []].
  - cbn [filterO]. split.
    + intros [fh Hfh].
      destruct (keepTurn c) as [b|e] eqn:Hk; [|discriminate]. cbn [obind] in Hfh.
      destruct (filterO keepTurn cs) as [xs|e] eqn:Hf; [|discriminate].
      constructor.
      * apply keepTurn_returns. now exists b.
      * apply IH. now exists xs.
    + intros Hall. inversion Hall as [|c' cs' Hc Hcs]; subst.
      apply keepTurn_returns in Hc. destruct Hc as [b ->].
      apply IH in Hcs. destruct Hcs as [xs ->]. cbn [obind]. now eexists.
Qed.

Lemma mapO_formatTurn items :
  (forall cs, mapO formatTurn items = Returned cs ->
     Forall (fun msg => msg <> JUndefined /\ msg <> JNull) items /\
     cs = map (fun msg => {| role := roleOf msg;
                             parts := [ {| text := selectedText msg |} ] |})
              items) /\
  (Forall (fun msg => msg <> JUndefined /\ msg <> JNull) items ->
   exists cs, mapO formatTurn items = Returned cs).
Proof.
  induction items as [|msg items [IH1 IH2]].
  - split; [intros cs [= <-]; split; [constructor | reflexivity] | now exists []].
  - cbn [mapO]. destruct (formatTurn_value msg) as [Hbad Hgood]. split.
    + intros cs Hcs.
      assert (Hok : msg <> JUndefined /\ msg <> JNull).
      { split; intros ->; destruct Hbad as [e He]; auto;
          rewrite He in Hcs; discriminate. }
      destruct Hok as [Hu Hn]. rewrite (Hgood Hu Hn) in Hcs. cbn [obind] in Hcs.
      destruct (mapO formatTurn items) as [ys|e]; [|discriminate].
      cbn [obind] in Hcs. injection Hcs as <-.
      destruct (IH1 ys eq_refl) as [Hall ->].
      split; [now constructor | reflexivity].
    + intros Hall. inversion Hall as [|m ms [Hu Hn] Hrest]; subst.
      rewrite (Hgood Hu Hn). destruct (IH2 Hrest) as [ys ->]. now eexists.
Qed.

(** C9, as the code has it: formatting completes (does not throw) exactly
    on the histories whose turns are all different from [null] and carry a
    string as selected text, where the selected text is [content] if
    truthy, else [text] if truthy, else the empty string.  A turn without
    [content] takes its text from [text]; a turn with neither is dropped. *)
Theorem formatting_total_on_string_turns items :
  (forallb stringTurn items = true <->
   exists fh, formattedHistory (JArr items) = Returned fh) /\
  (forall fields s,
     lookupField "content" fields = JUndefined ->
     lookupField "text" fields = JStr s ->
     formattedHistory (JArr [JObj fields]) =
     Returned (if blank s then []
               else [ {| role := roleOf (JObj fields);
                         parts := [ {| text := JStr s |} ] |} ])) /\
  (forall fields,
     lookupField "content" fields = JUndefined ->
     lookupField "text" fields = JUndefined ->
     formattedHistory (JArr [JObj fields]) = Returned []).
Proof.
  split; [|split].
  - unfold formattedHistory. rewrite forallb_forall.
    destruct (mapO_formatTurn items) as [Hm1 Hm2]. split.
    + intros Hall.
      assert (Hnn : Forall (fun msg => msg <> JUndefined /\ msg <> JNull) items).
      { apply Forall_forall. intros msg Hin.
        apply Hall, stringTurn_spec in Hin. tauto. }
      destruct (Hm2 Hnn) as [cs Hcs]. rewrite Hcs. cbn [obind].
      apply filterO_returns. destruct (Hm1 cs Hcs) as [_ ->].
      apply Forall_forall. intros c Hin. apply in_map_iff in Hin.
      destruct Hin as (msg & <- & Hin).
      apply Hall, stringTurn_spec in Hin. destruct Hin as (_ & _ & s & Hs).
      exists s, []. cbn [parts]. now rewrite Hs.
    + intros [fh Hfh] msg Hin.
      destruct (mapO formatTurn items) as [cs|e] eqn:Hcs; [|discriminate].
      cbn [obind] in Hfh. destruct (Hm1 cs eq_refl) as [Hnn ->].
      assert (Hts : Forall textIsString
                (map (fun msg => {| role := roleOf msg;
                                    parts := [ {| text := selectedText msg |} ] |})
                     items))
        by (apply filterO_returns; now exists fh).
      rewrite Forall_forall in Hnn, Hts. apply stringTurn_spec.
      destruct (Hnn msg Hin) as [Hu Hn]. repeat split; try assumption.
      destruct (Hts _ (in_map _ _ _ Hin)) as (s & rest & Hs).
      cbn [parts] in Hs. injection Hs as Hs _. now exists s.
  - intros fields s Hc Ht. unfold formattedHistory, formatTurn, keepTurn.
    cbn [mapO getProp obind]. rewrite Hc, Ht.
    unfold jsOr at 2. cbn [truthy]. unfold jsOr. cbn [truthy].
    destruct (s =? "") eqn:Hs; cbn [negb filterO obind parts text].
    + apply String.eqb_eq in Hs. subst s. reflexivity.
    + unfold blank, roleOf. now destruct (trim s =? "").
  - intros fields Hc Ht. unfold formattedHistory, formatTurn, keepTurn.
    cbn [mapO getProp obind]. rewrite Hc, Ht. reflexivity.
Qed.

Lemma formatting_total_on_string_turns_witness :
  formattedHistory
    (JArr [JObj [("role", JStr "user"); ("text", JStr "hello")]]) =
  Returned [ {| role := "user"; parts := [ {| text := JStr "hello" |} ] |} ].
Proof.
  exact (proj1 (proj2 (formatting_total_on_string_turns []))
           [("role", JStr "user"); ("text", JStr "hello")] "hello"
           eq_refl eq_refl).
Defined.

(** C9 as stated fails: a turn whose [content] is a number makes the
    filter callback call [trim] on a number, and formatting throws. *)
Lemma number_content_throws :
  ~ (forall msg, exists fh, formattedHistory (JArr [msg]) = Returned fh).
Proof.
  intros Hclaim.
  destruct (Hclaim (JObj [("role", JStr "user"); ("content", JNum 5)]))
    as [fh Hfh].
  discriminate Hfh.
Qed.

(** ** The model list *)

Section Models.

Variable H : Host.

(** Without a primary key nothing is fetched, whatever the pool holds. *)
Lemma models_without_primary_key (p : Proc (World H)) :
  envTruthy (GEMINI_API_KEY (env p)) = false ->
  modelsHandler H p =
  (Returned {| status := 500; body := Failure "API key not configured" None |}, p).
Proof.
  intros He. unfold modelsHandler, tryCatch, bind, getState.
  destruct (GEMINI_API_KEY (env p)) as [key|]; [|reflexivity].
  simpl in He. apply negb_false_iff in He. now rewrite He.
Qed.

(** C8: [GET /api/models] makes one call, to the list-models URL carrying
    [process.env.GEMINI_API_KEY], whatever key the cursor and the client
    are on, and leaves both alone; when the call throws the answer is 500,
    and when it yields an object the answer is [{ models, success: true }]
    with the object's [models] (an empty array when absent). *)
Theorem models_use_primary_key (p : Proc (World H)) key :
  GEMINI_API_KEY (env p) = Some key ->
  key <> "" ->
  let url := modelsUrl ++ key in
  let out := modelsHandler H p in
  eventsSince p (snd out) = [EvFetch url] /\
  currentApiKeyIndex (snd out) = currentApiKeyIndex p /\
  genAI (snd out) = genAI p /\
  (forall e,
     snd (fetchJson H (world p) url) = Thrown e ->
     fst out = Returned {| status := 500;
                           body := Failure "Failed to fetch models"
                                           (Some (message e)) |}) /\
  (forall fields,
     snd (fetchJson H (world p) url) = Returned (JObj fields) ->
     fst out = Returned {| status := 200;
                           body := ModelList (jsOr (lookupField "models" fields)
                                                   (JArr [])) |}) /\
  (forall fields,
     snd (fetchJson H (world p) url) = Returned (JObj fields) ->
     (exists l, lookupField "models" fields = JArr l) \/
     lookupField "models" fields = JUndefined ->
     exists l, fst out = Returned {| status := 200; body := ModelList (JArr l) |}).
Proof.
  intros Hk Hne url out. subst out.
  unfold modelsHandler, tryCatch, bind, getState. rewrite Hk.
  apply String.eqb_neq in Hne. rewrite Hne. fold url.
  unfold fetchJsonM. destruct (fetchJson H (world p) url) as [w [data | e]].
  - cbn [snd fst]. unfold liftO, respond, ret.
    destruct (getProp data "models") as [models | e] eqn:Hg; cbn [snd fst];
      (split; [now apply (eventsSince_app H) |]);
      (split; [reflexivity|]); (split; [reflexivity|]);
      (split; [discriminate|]).
    + split.
      * intros fields [= ->]. simpl in Hg. now injection Hg as <-.
      * intros fields [= ->] Hm. simpl in Hg. injection Hg as <-.
        destruct Hm as [[l ->] | ->]; now eexists.
    + split.
      * intros fields [= ->]. discriminate Hg.
      * intros fields [= ->]. discriminate Hg.
  - cbn [snd fst]. unfold respond, ret.
    split; [now apply (eventsSince_app H) |].
    split; [reflexivity|]. split; [reflexivity|].
    split; [now intros e' [= ->] |].
    split; intros fields; discriminate.
Qed.

End Models.

(** ** The credential cursor *)

Section Cursor.

Variable H : Host.

(** C10: the cursor starts at 0 and, after any sequence of requests, is a
    valid index into the pool, which is still the one collected at
    start-up; [switchApiKey] keeps it valid, does nothing when the pool has
    at most one key and otherwise advances it modulo the pool size. *)
Theorem cursor_always_valid (e : Env) (w : World H) (rs : list Request) :
  let p := serve H rs (startup H e w) in
  currentApiKeyIndex (startup H e w) = 0 /\
  apiKeys p = collectKeys e /\
  currentApiKeyIndex p < Nat.max 1 (List.length (apiKeys p)) /\
  currentApiKeyIndex (snd (switchApiKey H p))
  < Nat.max 1 (List.length (apiKeys (snd (switchApiKey H p)))) /\
  (if (List.length (apiKeys p) <=? 1)%nat
   then switchApiKey H p = (Returned tt, p)
   else currentApiKeyIndex (snd (switchApiKey H p)) =
        (currentApiKeyIndex p + 1) mod List.length (apiKeys p)).
Proof.
  intros p.
  assert (Hstart : validCursor (startup H e w)).
  { unfold validCursor, startup. cbn [currentApiKeyIndex]. lia. }
  destruct (serve_pool H rs (startup H e w)) as (_ & Hkeys & Hvalid).
  fold p in Hkeys, Hvalid. specialize (Hvalid Hstart).
  split; [reflexivity|]. split; [exact Hkeys|]. split; [exact Hvalid|].
  split.
  - apply (switchApiKey_pool H p). exact Hvalid.
  - unfold switchApiKey.
    destruct (List.length (apiKeys p)) as [|[|n]]; reflexivity.
Qed.

End Cursor.

Lemma models_use_primary_key_witness :
  genAI (snd (chatHandler quotaHost hiBody (startup quotaHost twoKeys tt)))
  = "key-2" /\
  eventsSince
    (snd (chatHandler quotaHost hiBody (startup quotaHost twoKeys tt)))
    (snd (modelsHandler quotaHost
            (snd (chatHandler quotaHost hiBody (startup quotaHost twoKeys tt)))))
  = [EvFetch "https://generativelanguage.googleapis.com/v1/models?key=key-1"].
Proof.
  split; [reflexivity|].
  refine (proj1 (models_use_primary_key quotaHost
                   (snd (chatHandler quotaHost hiBody
                           (startup quotaHost twoKeys tt)))
                   "key-1" eq_refl _)).
  discriminate.
Defined.

(** * Further properties of the server *)

(** ** Start-up (lines 15-33) *)

Lemma collectKeys_keyList e :
  collectKeys e = (keyList (GEMINI_API_KEY e) ++ keyList (GEMINI_API_KEY_2 e))%list.
Proof. unfold collectKeys. cbn [map concat]. now rewrite app_nil_r. Qed.

Lemma keyList_spec v :
  (forall k, In k (keyList v) <-> k <> "" /\ v = Some k) /\
  List.length (keyList v) <= 1 /\
  (keyList v = [] <-> envTruthy v = false) /\
  (envTruthy v = true -> exists s, v = Some s /\ keyList v = [s]).
Proof.
  destruct v as [s|]; cbn [keyList envTruthy].
  - destruct (String.eqb_spec s "") as [-> | Hs]; cbn [negb].
    + repeat split; try (cbn; lia); try discriminate; try contradiction.
      intros [Hk [= <-]]. contradiction.
    + repeat split; try (cbn; lia); try discriminate.
      * destruct H as [<- | []]. assumption.
      * destruct H as [<- | []]. reflexivity.
      * intros [_ [= ->]]. now left.
      * now exists s.
  - repeat split; try (cbn; lia); try discriminate; try contradiction.
    intros [_ Hk]. discriminate.
Qed.

(** X1: the pool holds exactly the non-empty keys of the two variables, the
    primary one first, and so at most two keys. *)
Theorem collectKeys_spec (e : Env) :
  (forall k, In k (collectKeys e) <->
             k <> "" /\ (GEMINI_API_KEY e = Some k \/ GEMINI_API_KEY_2 e = Some k)) /\
  List.length (collectKeys e) <= 2 /\
  (List.length (collectKeys e) = 0 <->
   envTruthy (GEMINI_API_KEY e) = false /\ envTruthy (GEMINI_API_KEY_2 e) = false) /\
  (envTruthy (GEMINI_API_KEY e) = true ->
   hd_error (collectKeys e) = GEMINI_API_KEY e).
Proof.
  rewrite collectKeys_keyList.
  destruct (keyList_spec (GEMINI_API_KEY e)) as (Hin1 & Hlen1 & Hnil1 & Hhd1).
  destruct (keyList_spec (GEMINI_API_KEY_2 e)) as (Hin2 & Hlen2 & Hnil2 & _).
  split; [|split; [|split]].
  - intros k. rewrite in_app_iff, Hin1, Hin2. tauto.
  - rewrite length_app. lia.
  - rewrite length_zero_iff_nil. rewrite <- Hnil1, <- Hnil2. split.
    + apply app_eq_nil.
    + intros [-> ->]. reflexivity.
  - intros Ht. destruct (Hhd1 Ht) as (s & -> & ->). reflexivity.
Qed.

Lemma collectKeys_spec_witness :
  hd_error (collectKeys twoKeys) = Some "key-1".
Proof.
  exact (proj2 (proj2 (proj2 (collectKeys_spec twoKeys))) eq_refl).
Defined.

Section Unconfigured.

Variable H : Host.

Lemma handle_without_keys r (p : Proc (World H)) :
  apiKeys p = [] ->
  envTruthy (GEMINI_API_KEY (env p)) = false ->
  snd (handle H r p) = p.
Proof.
  intros Hk He. destruct r as [reqBody | |]; cbn [handle].
  - unfold chatHandler, tryCatch, chatTry, bind, getState.
    destruct (truthy (lookupField "message" reqBody)); cbn [negb];
      [rewrite Hk|]; reflexivity.
  - unfold modelsHandler, tryCatch, bind, getState.
    destruct (GEMINI_API_KEY (env p)) as [key|]; [|reflexivity].
    simpl in He. apply negb_false_iff in He. now rewrite He.
  - reflexivity.
Qed.

(** X2: when neither variable holds a key, start-up logs the two warning lines
    and no request ever changes the process: whatever is requested, and in
    whatever order, nothing is constructed, sent, fetched or logged, and a
    chat request that carries a message gets the configuration failure. *)
Theorem unconfigured_server_is_inert (e : Env) (w : World H) (rs : list Request) :
  envTruthy (GEMINI_API_KEY e) = false ->
  envTruthy (GEMINI_API_KEY_2 e) = false ->
  serve H rs (startup H e w) = startup H e w /\
  trace (startup H e w) = [EvConsole LogNoKeyWarning; EvConsole LogNoKeyHint] /\
  (forall reqBody,
     truthy (lookupField "message" reqBody) = true ->
     fst (chatHandler H reqBody (serve H rs (startup H e w)))
     = Returned configFailure).
Proof.
  intros H1 H2.
  assert (Hkeys : collectKeys e = []).
  { rewrite collectKeys_keyList.
    destruct (keyList_spec (GEMINI_API_KEY e)) as (_ & _ & Hn1 & _).
    destruct (keyList_spec (GEMINI_API_KEY_2 e)) as (_ & _ & Hn2 & _).
    now rewrite (proj2 Hn1 H1), (proj2 Hn2 H2). }
  assert (Hserve : serve H rs (startup H e w) = startup H e w).
  { induction rs as [|r rs IH]; [reflexivity|]. cbn [serve].
    rewrite handle_without_keys; [exact IH | exact Hkeys | exact H1]. }
  split; [exact Hserve|]. split.
  - unfold startup. cbn [trace]. now rewrite Hkeys.
  - intros reqBody Hm. rewrite Hserve.
    unfold chatHandler, tryCatch, chatTry, bind, getState. rewrite Hm.
    cbn [negb]. unfold startup at 1. cbn [apiKeys]. now rewrite Hkeys.
Qed.

End Unconfigured.

Lemma unconfigured_server_is_inert_witness :
  serve quotaHost [PostChat hiBody; GetModels; GetHealth]
        (startup quotaHost noKeys tt)
  = startup quotaHost noKeys tt.
Proof.
  exact (proj1 (unconfigured_server_is_inert quotaHost noKeys tt
                  [PostChat hiBody; GetModels; GetHealth] eq_refl eq_refl)).
Defined.

(** ** The health route (lines 171-173) *)

Section Health.

Variable H : Host.

(** X3: health checks are invisible to the rest of the server: dropping them
    from any sequence of requests leaves the final process the same, and
    each one is answered with the fixed payload whatever came before. *)
Theorem health_checks_are_invisible (rs : list Request) (p : Proc (World H)) :
  serve H rs p
  = serve H (filter (fun r => match r with GetHealth => false | _ => true end) rs) p /\
  fst (handle H GetHealth (serve H rs p)) = Returned healthResponse.
Proof.
  split; [|reflexivity].
  revert p. induction rs as [|r rs IH]; intros p; [reflexivity|].
  destruct r; cbn [filter serve]; apply IH.
Qed.

End Health.

(** ** Every request is answered *)

Lemma bind_returned {S A B} (m : M S A) (k : A -> M S B) s b s' :
  bind m k s = (Returned b, s') ->
  exists a s1, m s = (Returned a, s1) /\ k a s1 = (Returned b, s').
Proof.
  unfold bind. destruct (m s) as [[a | e] s1]; [|discriminate].
  intros Hk. now exists a, s1.
Qed.

Ltac stable_by refl trans leaf :=
  repeat first
    [ leaf
    | apply (stable_ret _ refl)
    | apply (stable_throw _ refl)
    | apply (stable_liftO _ refl)
    | apply (stable_getState _ refl)
    | apply (stable_bind _ trans); [| intro]
    | apply (stable_tryCatch _ trans); [| intro] ].

Ltac client_leaf :=
  first [ apply consoleLog_client | apply getModel_client
        | apply startChatM_client | apply sendMessageM_client
        | apply fetchJsonM_client | apply pickModel_client
        | apply openChat_client | apply chatTry_client ].

Section Responses.

Variable H : Host.

Lemma chatTry_returned reqBody (p : Proc (World H)) r p1 :
  chatTry H reqBody p = (Returned r, p1) ->
  (r = {| status := 400; body := Failure "Message is required" None |} /\ p1 = p) \/
  (r = configFailure /\ p1 = p) \/
  exists reply, r = {| status := 200; body := ChatReply reply |}.
Proof.
  unfold chatTry.
  destruct (negb (truthy (lookupField "message" reqBody))).
  { intros [= <- <-]. now left. }
  intros Hrun. apply bind_returned in Hrun. destruct Hrun as (q & p0 & [= <- <-] & Hrun).
  destruct (List.length (apiKeys p) =? 0)%nat.
  { injection Hrun as <- <-. right. now left. }
  apply bind_returned in Hrun. destruct Hrun as (model & p2 & _ & Hrun).
  apply bind_returned in Hrun. destruct Hrun as (chat & p3 & _ & Hrun).
  apply bind_returned in Hrun. destruct Hrun as (reply & p4 & _ & Hrun).
  injection Hrun as <- _. right. right. now exists reply.
Qed.

Lemma modelsHandler_client : stable keepsClient (modelsHandler H).
Proof.
  unfold modelsHandler, respond.
  stable_by uconstr:(keepsClient_refl) uconstr:(keepsClient_trans) fail.
  destruct (GEMINI_API_KEY (env a)) as [key|];
    [destruct (key =? "")|];
    stable_by uconstr:(keepsClient_refl) uconstr:(keepsClient_trans) client_leaf.
Qed.

(** X4: no request is left without a response: every handler returns, with
    status 200 and a success body, or with status 400 or 500 and a failure
    body; 400 is only ever the answer to a chat request. *)
Theorem every_request_is_answered (r : Request) (p : Proc (World H)) :
  exists resp,
    fst (handle H r p) = Returned resp /\
    ((status resp = 200 /\ success resp = true) \/
     ((status resp = 400 /\ isChat r = true \/ status resp = 500) /\
      success resp = false)).
Proof.
  destruct r as [reqBody | |]; cbn [handle].
  - destruct (chatTry H reqBody p) as [[resp | e] p1] eqn:Ht.
    + rewrite (chatHandler_returned H _ _ _ _ Ht). exists resp.
      split; [reflexivity|].
      destruct (chatTry_returned _ _ _ _ Ht) as [[-> _] | [[-> _] | [reply ->]]];
        cbn; auto.
    + rewrite (chatHandler_thrown H _ _ _ _ Ht), chatCatch_fails.
      exists (failureOf e). cbn. auto.
  - unfold modelsHandler, tryCatch, bind, getState, fetchJsonM, liftO, respond, ret.
    destruct (GEMINI_API_KEY (env p)) as [key|]; [destruct (key =? "")|];
      try (eexists; split; [reflexivity | cbn; auto]).
    destruct (fetchJson H (world p) (modelsUrl ++ key)) as [w [data | e]];
      [destruct (getProp data "models")|];
      eexists; (split; [reflexivity | cbn; auto]).
  - exists healthResponse. cbn. auto.
Qed.

End Responses.

(** ** The cursor and the client (lines 26-42) *)

Lemma keepsSync_refl {W} (p : Proc W) : keepsSync p p.
Proof. split; auto. Qed.

Lemma keepsSync_trans {W} (a b c : Proc W) :
  keepsSync a b -> keepsSync b c -> keepsSync a c.
Proof. unfold keepsSync. intuition congruence. Qed.

Lemma keepsClient_keepsSync {W} (a b : Proc W) :
  keepsClient a b -> keepsSync a b.
Proof.
  unfold keepsClient, keepsSync, clientInSync.
  intros (_ & Hk & Hi & Hg). split; [exact Hk|]. congruence.
Qed.

Section CursorAndClient.

Variable H : Host.

Lemma sync_of_client {A} (m : M (Proc (World H)) A) :
  stable keepsClient m -> stable keepsSync m.
Proof. apply stable_weaken. apply keepsClient_keepsSync. Qed.

Lemma switchApiKey_sync : stable keepsSync (switchApiKey H).
Proof.
  intros p. unfold switchApiKey.
  destruct (1 <? List.length (apiKeys p))%nat; [|apply keepsSync_refl].
  split; [reflexivity|]. intros _. reflexivity.
Qed.

Ltac sync_leaf :=
  first [ apply switchApiKey_sync | apply sync_of_client; client_leaf ].

Lemma chatCatch_sync e : stable keepsSync (chatCatch H e).
Proof.
  unfold chatCatch, retryWithNextKey, retryAttempt, respond.
  stable_by uconstr:(keepsSync_refl) uconstr:(keepsSync_trans) sync_leaf.
  - destruct (retryEligible e && (1 <? List.length (apiKeys a2))%nat);
      stable_by uconstr:(keepsSync_refl) uconstr:(keepsSync_trans) sync_leaf.
  - destruct a3;
      stable_by uconstr:(keepsSync_refl) uconstr:(keepsSync_trans) sync_leaf.
Qed.

Lemma handle_sync r : stable keepsSync (handle H r).
Proof.
  destruct r; cbn [handle].
  - unfold chatHandler.
    stable_by uconstr:(keepsSync_refl) uconstr:(keepsSync_trans)
      ltac:(first [apply chatCatch_sync | sync_leaf]).
  - apply sync_of_client, modelsHandler_client.
  - intros p. apply keepsSync_refl.
Qed.

(** X5: after any sequence of requests the client in use is the one built for
    the key under the cursor: a key of the pool when there is one, the
    empty key otherwise. *)
Theorem client_follows_cursor (e : Env) (w : World H) (rs : list Request) :
  let p := serve H rs (startup H e w) in
  genAI p = nth (currentApiKeyIndex p) (apiKeys p) "" /\
  match apiKeys p with
  | [] => genAI p = ""
  | _ :: _ => In (genAI p) (apiKeys p)
  end.
Proof.
  intros p.
  assert (Hsync : clientInSync p).
  { subst p. generalize (startup H e w) (eq_refl : clientInSync (startup H e w)).
    induction rs as [|r rs IH]; intros q Hq; [exact Hq|].
    cbn [serve]. apply IH. now apply (handle_sync r q). }
  split; [exact Hsync|].
  destruct (serve_pool H rs (startup H e w)) as (_ & _ & Hvalid).
  fold p in Hvalid.
  assert (Hv : validCursor p)
    by (apply Hvalid; unfold validCursor, startup; cbn [currentApiKeyIndex]; lia).
  unfold clientInSync in Hsync. unfold validCursor in Hv. rewrite Hsync.
  destruct (apiKeys p) as [|k ks] eqn:Hk.
  - now destruct (currentApiKeyIndex p).
  - apply nth_In. cbn [List.length] in *. lia.
Qed.

(** X6: the cursor moves only in the retry: a chat request moves it to the
    next key, wrapping, exactly when its first attempt throws an error
    that mentions "quota", "429" or "API_KEY" and the pool has more than one
    key; the model list and the health check never move it. *)
Theorem cursor_moves_only_on_retry (r : Request) (p : Proc (World H)) :
  currentApiKeyIndex (snd (handle H r p)) =
  match r with
  | PostChat reqBody =>
      match fst (chatTry H reqBody p) with
      | Thrown e =>
          if retryEligible e && (1 <? List.length (apiKeys p))%nat
          then (currentApiKeyIndex p + 1) mod List.length (apiKeys p)
          else currentApiKeyIndex p
      | Returned _ => currentApiKeyIndex p
      end
  | _ => currentApiKeyIndex p
  end.
Proof.
  destruct r as [reqBody | |]; cbn [handle].
  - pose proof (chatTry_client H reqBody p) as (_ & Hk & Hi & _).
    destruct (chatTry H reqBody p) as [[resp | e] p1] eqn:Ht; cbn [fst snd] in *.
    + now rewrite (chatHandler_returned H _ _ _ _ Ht).
    + rewrite (chatHandler_thrown H _ _ _ _ Ht), chatCatch_unfold, Hk.
      destruct (retryEligible e); cbn [andb]; [|exact Hi].
      destruct (1 <? List.length (apiKeys p))%nat eqn:Hlen; [|exact Hi].
      apply Nat.ltb_lt in Hlen.
      assert (Hlen1 : 1 < List.length (apiKeys (logged e p1)))
        by (unfold logged; proc_simpl; now rewrite Hk).
      destruct (retryAttempt_thrown H (logged e p1) Hlen1)
        as (re & p' & evs & Hr & _ & _ & Hc & _).
      rewrite Hr. cbn [snd]. unfold withEvent, withWorld. cbn [currentApiKeyIndex].
      rewrite Hc. unfold logged. proc_simpl. now rewrite Hk, Hi.
  - apply (modelsHandler_client H p).
  - reflexivity.
Qed.

Lemma switchApiKey_step (q : Proc (World H)) :
  (1 < List.length (apiKeys q))%nat ->
  apiKeys (snd (switchApiKey H q)) = apiKeys q /\
  currentApiKeyIndex (snd (switchApiKey H q)) =
  (currentApiKeyIndex q + 1) mod List.length (apiKeys q) /\
  clientInSync (snd (switchApiKey H q)).
Proof.
  intros Hlen. apply Nat.ltb_lt in Hlen. unfold switchApiKey. rewrite Hlen.
  repeat split.
Qed.

Lemma switchTimes_cursor n (p : Proc (World H)) :
  (1 < List.length (apiKeys p))%nat ->
  apiKeys (switchTimes H n p) = apiKeys p /\
  (0 < n ->
   currentApiKeyIndex (switchTimes H n p) =
   (currentApiKeyIndex p + n) mod List.length (apiKeys p) /\
   clientInSync (switchTimes H n p)).
Proof.
  intros Hlen. induction n as [|n (Hk & IH)].
  - split; [reflexivity | lia].
  - change (switchTimes H (S n) p)
      with (snd (switchApiKey H (switchTimes H n p))).
    destruct (switchApiKey_step (switchTimes H n p)) as (Hk' & Hc' & Hs');
      [now rewrite Hk|].
    split; [now rewrite Hk'|]. intros _. split; [|exact Hs'].
    rewrite Hc', Hk. destruct n as [|n]; [reflexivity|].
    destruct IH as [-> _]; [lia|].
    rewrite Nat.Div0.add_mod_idemp_l. f_equal. lia.
Qed.

(** X7: switching as many times as there are keys is a round trip: with more
    than one key and a valid cursor, the cursor is back where it was and
    the client is the one for that key. *)
Theorem switching_through_the_pool_returns (p : Proc (World H)) :
  (1 < List.length (apiKeys p))%nat ->
  validCursor p ->
  let q := switchTimes H (List.length (apiKeys p)) p in
  currentApiKeyIndex q = currentApiKeyIndex p /\
  genAI q = nth (currentApiKeyIndex p) (apiKeys p) "" /\
  apiKeys q = apiKeys p /\
  (forall n, 0 < n < List.length (apiKeys p) ->
     currentApiKeyIndex (switchTimes H n p) <> currentApiKeyIndex p).
Proof.
  intros Hlen Hv q. unfold validCursor in Hv.
  assert (Hi : currentApiKeyIndex p < List.length (apiKeys p)) by lia.
  destruct (switchTimes_cursor (List.length (apiKeys p)) p Hlen)
    as (Hk & Hc).
  destruct Hc as [Hc Hs]; [lia|]. fold q in Hk, Hc, Hs.
  assert (Hback : currentApiKeyIndex q = currentApiKeyIndex p).
  { rewrite Hc.
    replace (currentApiKeyIndex p + List.length (apiKeys p))
      with (currentApiKeyIndex p + 1 * List.length (apiKeys p)) by lia.
    rewrite Nat.Div0.mod_add. now apply Nat.mod_small. }
  repeat split; try assumption.
  - unfold clientInSync in Hs. now rewrite Hs, Hback, Hk.
  - intros n [Hn0 Hn].
    destruct (switchTimes_cursor n p Hlen) as (_ & Hcn).
    destruct Hcn as [-> _]; [assumption|].
    set (len := List.length (apiKeys p)) in *.
    set (i := currentApiKeyIndex p) in *.
    destruct (Nat.lt_ge_cases (i + n) len) as [Hlt | Hge].
    + rewrite Nat.mod_small by assumption. lia.
    + replace (i + n) with ((i + n - len) + 1 * len) by lia.
      rewrite Nat.Div0.mod_add, Nat.mod_small by lia. lia.
Qed.

End CursorAndClient.

Lemma switching_through_the_pool_returns_witness :
  currentApiKeyIndex (switchTimes quotaHost 2 (startup quotaHost twoKeys tt)) = 0 /\
  genAI (switchTimes quotaHost 2 (startup quotaHost twoKeys tt)) = "key-1".
Proof.
  destruct (switching_through_the_pool_returns quotaHost
              (startup quotaHost twoKeys tt))
    as (Hc & Hg & _).
  - simpl. lia.
  - unfold validCursor. simpl. lia.
  - split; [exact Hc | exact Hg].
Defined.

(** ** The first attempt (lines 63-100) *)

Ltac host_cases H :=
  repeat (proc_simpl;
          match goal with
          | |- context [getGenerativeModel H ?w ?k ?m] =>
              destruct (getGenerativeModel H w k m) as [? [[] | ?]] eqn:?
          | |- context [startChat H ?w ?m ?h] =>
              destruct (startChat H w m h) as [? [[] | ?]] eqn:?
          | |- context [sendMessage H ?w ?c ?m] =>
              destruct (sendMessage H w c m) as [? [? | ?]] eqn:?
          end).

Ltac trace_grows :=
  first
    [ exists []; split; [symmetry; apply app_nil_r | constructor]
    | eexists; split;
      [ proc_simpl; rewrite <- ?app_assoc; cbn [app]; reflexivity
      | repeat constructor ] ].

Section FirstAttempt.

Variable H : Host.

(** X8: the construction fallback: the model names are tried in the fixed
    order under the current key, one to three of them; a later name is
    tried only after every earlier one threw, the handle is for the last
    name tried, and the chain throws only after all three did. *)
Theorem fallback_chain_order (p : Proc (World H)) :
  exists n,
    1 <= n <= 3 /\
    eventsSince p (snd (pickModel H p))
    = map (EvGetModel (genAI p)) (firstn n modelPreference) /\
    match fst (pickModel H p) with
    | Returned h =>
        mh_key h = genAI p /\ nth_error modelPreference (n - 1) = Some (mh_model h)
    | Thrown _ => n = 3
    end /\
    (n = 1 <->
     exists u, snd (getGenerativeModel H (world p) (genAI p) "gemini-2.5-flash")
               = Returned u).
Proof.
  unfold pickModel, tryCatch, getModel.
  destruct (getGenerativeModel H (world p) (genAI p) "gemini-2.5-flash")
    as [w1 [[] | e1]] eqn:H1; proc_simpl; cbn [fst snd].
  { exists 1. repeat split; try lia.
    - now apply (eventsSince_app H).
    - now exists tt. }
  destruct (getGenerativeModel H w1 (genAI p) "gemini-2.5-pro")
    as [w2 [[] | e2]] eqn:H2; proc_simpl; cbn [fst snd].
  { exists 2. repeat split; try lia.
    - apply (eventsSince_app H). proc_simpl. now rewrite <- app_assoc.
    - intros [u Hu]. discriminate. }
  destruct (getGenerativeModel H w2 (genAI p) "gemini-2.0-flash")
    as [w3 [[] | e3]] eqn:H3; proc_simpl; cbn [fst snd];
    exists 3; repeat split; try lia;
    try (apply (eventsSince_app H); proc_simpl; now rewrite <- !app_assoc);
    intros [u Hu]; discriminate.
Qed.

Lemma chatTry_trace reqBody (p : Proc (World H)) :
  exists evs,
    trace (snd (chatTry H reqBody p)) = (trace p ++ evs)%list /\
    Forall (usesKey (genAI p)) evs.
Proof.
  unfold chatTry, pickModel, openChat, tryCatch, bind, getState, getModel,
    startChatM, sendMessageM, liftO, respond, ret.
  cbv zeta.
  destruct (negb (truthy (lookupField "message" reqBody))); [trace_grows|].
  destruct (List.length (apiKeys p) =? 0)%nat; [trace_grows|].
  destruct (truthy _ && lengthGtZero H _);
    [destruct (formattedHistory _)|];
    host_cases H; cbn [fst snd]; trace_grows.
Qed.

(** X9: every call the first attempt makes to the client library goes through
    the client that was current when the request arrived, and the first
    attempt writes nothing to the console. *)
Theorem first_attempt_uses_current_key reqBody (p : Proc (World H)) :
  Forall (usesKey (genAI p)) (eventsSince p (snd (chatTry H reqBody p))) /\
  genAI (snd (chatTry H reqBody p)) = genAI p.
Proof.
  destruct (chatTry_trace reqBody p) as [evs [Htr Hall]]. split.
  - now rewrite (eventsSince_app H _ _ _ Htr).
  - apply (chatTry_client H reqBody p).
Qed.

End FirstAttempt.

Section RequestPaths.

Variable H : Host.

Lemma chatTry_first_event reqBody (p : Proc (World H)) :
  truthy (lookupField "message" reqBody) = true ->
  apiKeys p <> [] ->
  exists rest,
    trace (snd (chatTry H reqBody p))
    = (trace p ++ EvGetModel (genAI p) "gemini-2.5-flash" :: rest)%list.
Proof.
  intros Hm Hk.
  unfold chatTry, pickModel, openChat, tryCatch, bind, getState, getModel,
    startChatM, sendMessageM, liftO, respond, ret.
  cbv zeta. rewrite Hm. cbn [negb].
  destruct (apiKeys p) as [|k ks]; [contradiction|]. cbn [List.length Nat.eqb].
  destruct (truthy _ && lengthGtZero H _);
    [destruct (formattedHistory _)|];
    host_cases H; cbn [fst snd]; eexists;
    proc_simpl; rewrite <- ?app_assoc; cbn [app]; reflexivity.
Qed.

Lemma chatCatch_grows e (p : Proc (World H)) :
  exists evs, trace (snd (chatCatch H e p)) = (trace p ++ evs)%list.
Proof.
  rewrite chatCatch_unfold.
  destruct (retryEligible e && (1 <? List.length (apiKeys p))%nat) eqn:Hc.
  - apply andb_true_iff in Hc. destruct Hc as [_ Hlen]. apply Nat.ltb_lt in Hlen.
    destruct (retryAttempt_thrown H (logged e p) Hlen)
      as (re & p' & evs & Hr & Htr & _).
    rewrite Hr. cbn [snd]. unfold withEvent, withWorld. cbn [trace].
    rewrite Htr, trace_logged, <- !app_assoc. now eexists.
  - cbn [snd]. rewrite trace_logged. now eexists.
Qed.

Lemma chatHandler_first_event reqBody (p : Proc (World H)) :
  truthy (lookupField "message" reqBody) = true ->
  apiKeys p <> [] ->
  exists rest,
    eventsSince p (snd (chatHandler H reqBody p))
    = EvGetModel (genAI p) "gemini-2.5-flash" :: rest.
Proof.
  intros Hm Hk. destruct (chatTry_first_event reqBody p Hm Hk) as [rest Htr].
  destruct (chatTry H reqBody p) as [[r | e] p1] eqn:Ht; cbn [snd] in Htr.
  - rewrite (chatHandler_returned H _ _ _ _ Ht). exists rest.
    now apply (eventsSince_app H).
  - rewrite (chatHandler_thrown H _ _ _ _ Ht).
    destruct (chatCatch_grows e p1) as [evs Hevs].
    exists (rest ++ evs)%list. apply (eventsSince_app H).
    rewrite Hevs, Htr, <- app_assoc. reflexivity.
Qed.

(** X10: the failover is process-wide: once a request has switched keys, the
    client stays on the next key, and the following chat request makes its
    first call, and every call of its first attempt, under that key. *)
Theorem failover_persists reqBody1 reqBody2 (p : Proc (World H)) e p1 :
  chatTry H reqBody1 p = (Thrown e, p1) ->
  retryEligible e = true ->
  1 < List.length (apiKeys p) ->
  truthy (lookupField "message" reqBody2) = true ->
  let p' := snd (chatHandler H reqBody1 p) in
  let key' := nth ((currentApiKeyIndex p + 1) mod List.length (apiKeys p))
                  (apiKeys p) "" in
  genAI p' = key' /\
  (exists rest,
     eventsSince p' (snd (chatHandler H reqBody2 p'))
     = EvGetModel key' "gemini-2.5-flash" :: rest) /\
  Forall (usesKey key') (eventsSince p' (snd (chatTry H reqBody2 p'))).
Proof.
  intros Ht He Hlen Hm p' key'.
  pose proof (chatTry_client H reqBody1 p) as Hc. rewrite Ht in Hc.
  destruct Hc as (_ & Hk & Hi & _). cbn [snd] in Hk, Hi.
  assert (Hlen1 : 1 < List.length (apiKeys (logged e p1)))
    by (unfold logged; proc_simpl; now rewrite Hk).
  destruct (retryAttempt_thrown H (logged e p1) Hlen1)
    as (re & q & evs & Hr & _ & _ & _ & Hg & Hkq & _).
  assert (Hp' : p' = withEvent (EvConsole (LogRetryFailed re)) q).
  { subst p'. rewrite (chatHandler_thrown H _ _ _ _ Ht), chatCatch_unfold, Hk, He.
    apply Nat.ltb_lt in Hlen. rewrite Hlen. cbn [andb]. now rewrite Hr. }
  assert (Hgen : genAI p' = key').
  { rewrite Hp'. proc_simpl. rewrite Hg. unfold logged. proc_simpl.
    subst key'. now rewrite Hk, Hi. }
  assert (Hne : apiKeys p' <> []).
  { rewrite Hp'. proc_simpl. rewrite Hkq. unfold logged. proc_simpl.
    rewrite Hk. intros Hnil. rewrite Hnil in Hlen. cbn in Hlen. lia. }
  split; [exact Hgen|]. split.
  - rewrite <- Hgen. now apply chatHandler_first_event.
  - rewrite <- Hgen. destruct (chatTry_trace H reqBody2 p') as [evs2 [Htr2 Hall2]].
    now rewrite (eventsSince_app H _ _ _ Htr2).
Qed.

(** X11: a history that has a positive length but is not an array (a non-empty
    string, say) is an error of its own: once the model handle is built,
    [history.map] throws, no session is opened, nothing is sent and no
    retry is made; the answer is the 500 failure with the default text and
    the TypeError's message as details. *)
Theorem non_array_history_is_rejected reqBody (p : Proc (World H)) h w u :
  truthy (lookupField "message" reqBody) = true ->
  apiKeys p <> [] ->
  lookupField "history" reqBody = h ->
  truthy h && lengthGtZero H h = true ->
  (forall items, h <> JArr items) ->
  getGenerativeModel H (world p) (genAI p) "gemini-2.5-flash" = (w, Returned u) ->
  chatHandler H reqBody p =
  (Returned {| status := 500;
               body := Failure msgDefault
                               (Some "history.map is not a function") |},
   logged (typeError "history.map is not a function")
          (withWorld w (EvGetModel (genAI p) "gemini-2.5-flash") p)).
Proof.
  intros Hm Hk Hh Hpos Hna Hgm.
  assert (Ht : chatTry H reqBody p =
               (Thrown (typeError "history.map is not a function"),
                withWorld w (EvGetModel (genAI p) "gemini-2.5-flash") p)).
  { unfold chatTry, pickModel, openChat, tryCatch, bind, getState, getModel,
      liftO. cbv zeta. rewrite Hm, Hh. cbn [negb].
    destruct (apiKeys p) as [|k ks]; [contradiction|]. cbn [List.length Nat.eqb].
    rewrite Hgm. destruct u.
    destruct h; cbv iota;
      try (cbn in Hpos; rewrite ?andb_false_r in Hpos; discriminate Hpos);
      try (now destruct (Hna items));
      rewrite Hpos; reflexivity. }
  rewrite (chatHandler_thrown H _ _ _ _ Ht), chatCatch_unfold. reflexivity.
Qed.

(** X12: the plain success path: a request that carries a message and no
    history, on a backend that builds the primary model, opens the session
    and answers the send, gets status 200 with the backend's text; exactly
    three calls are made, all under the current key, with the message as
    received; nothing is logged and the cursor stays where it was. *)
Theorem plain_request_succeeds reqBody (p : Proc (World H)) w1 u1 w2 u2 w3 reply :
  truthy (lookupField "message" reqBody) = true ->
  lookupField "history" reqBody = JUndefined ->
  apiKeys p <> [] ->
  let model := {| mh_key := genAI p; mh_model := "gemini-2.5-flash" |} in
  let chat := {| cs_model := model; cs_history := None |} in
  getGenerativeModel H (world p) (genAI p) "gemini-2.5-flash" = (w1, Returned u1) ->
  startChat H w1 model None = (w2, Returned u2) ->
  sendMessage H w2 chat (lookupField "message" reqBody) = (w3, Returned reply) ->
  fst (chatHandler H reqBody p)
  = Returned {| status := 200; body := ChatReply reply |} /\
  eventsSince p (snd (chatHandler H reqBody p))
  = [EvGetModel (genAI p) "gemini-2.5-flash";
     EvStartChat model None;
     EvSendMessage chat (lookupField "message" reqBody)] /\
  currentApiKeyIndex (snd (chatHandler H reqBody p)) = currentApiKeyIndex p /\
  genAI (snd (chatHandler H reqBody p)) = genAI p /\
  world (snd (chatHandler H reqBody p)) = w3.
Proof.
  intros Hm Hh Hk model chat Hgm Hsc Hsm.
  unfold chatHandler, chatTry, pickModel, openChat, tryCatch, bind, getState,
    getModel, startChatM, sendMessageM, liftO, respond, ret.
  cbv zeta. rewrite Hm, Hh. cbn [negb].
  destruct (apiKeys p) as [|k ks]; [contradiction|]. cbn [List.length Nat.eqb].
  rewrite Hgm. destruct u1. cbn [truthy lengthGtZero andb List.length Nat.ltb Nat.leb].
  proc_simpl. fold model. rewrite Hsc. destruct u2. proc_simpl. fold chat.
  rewrite Hsm. cbn [fst snd]. proc_simpl.
  repeat split. apply (eventsSince_app H). proc_simpl.
  now rewrite <- !app_assoc.
Qed.

End RequestPaths.

Lemma failover_persists_witness :
  genAI (snd (chatHandler quotaHost hiBody (startup quotaHost twoKeys tt)))
  = "key-2" /\
  (exists rest,
     eventsSince
       (snd (chatHandler quotaHost hiBody (startup quotaHost twoKeys tt)))
       (snd (chatHandler quotaHost hiBody
               (snd (chatHandler quotaHost hiBody
                       (startup quotaHost twoKeys tt)))))
     = EvGetModel "key-2" "gemini-2.5-flash" :: rest) /\
  Forall (usesKey "key-2")
    (eventsSince
       (snd (chatHandler quotaHost hiBody (startup quotaHost twoKeys tt)))
       (snd (chatTry quotaHost hiBody
               (snd (chatHandler quotaHost hiBody
                       (startup quotaHost twoKeys tt)))))).
Proof.
  apply (failover_persists quotaHost hiBody hiBody
           (startup quotaHost twoKeys tt) quotaError
           (snd (chatTry quotaHost hiBody (startup quotaHost twoKeys tt)))).
  - reflexivity.
  - reflexivity.
  - simpl. lia.
  - reflexivity.
Defined.

Lemma non_array_history_is_rejected_witness :
  fst (chatHandler quotaHost
         [("message", JStr "hi"); ("history", JStr "earlier talk")]
         (startup quotaHost oneKey tt))
  = Returned {| status := 500;
                body := Failure msgDefault
                                (Some "history.map is not a function") |}.
Proof.
  rewrite (non_array_history_is_rejected quotaHost
             [("message", JStr "hi"); ("history", JStr "earlier talk")]
             (startup quotaHost oneKey tt) (JStr "earlier talk") tt tt).
  - reflexivity.
  - reflexivity.
  - discriminate.
  - reflexivity.
  - reflexivity.
  - discriminate.
  - reflexivity.
Defined.

Lemma plain_request_succeeds_witness :
  fst (chatHandler quotaHost hiBody (startup quotaHost secondKeyOnly tt))
  = Returned {| status := 200; body := ChatReply "pong" |}.
Proof.
  refine (proj1 (plain_request_succeeds quotaHost hiBody
                   (startup quotaHost secondKeyOnly tt) tt tt tt tt tt "pong"
                   eq_refl eq_refl _ eq_refl eq_refl eq_refl)).
  discriminate.
Defined.

(** ** The model list (lines 144-168) *)

Section ModelList.

Variable H : Host.

Lemma consoleLog_emits (Q : Event -> Prop) line :
  Q (EvConsole line) -> stable (emitsOnly Q) (consoleLog H line).
Proof. intros Hq p. now apply emitsOnly_one. Qed.

Lemma switchApiKey_emits (Q : Event -> Prop) :
  (forall line, Q (EvConsole line)) -> stable (emitsOnly Q) (switchApiKey H).
Proof.
  intros Hq p. unfold switchApiKey.
  destruct (1 <? List.length (apiKeys p))%nat; [|apply emitsOnly_refl].
  eexists [_]. split; [reflexivity|]. constructor; [apply Hq | constructor].
Qed.

Ltac notFetch_leaf :=
  first [ apply consoleLog_emits; exact I
        | apply switchApiKey_emits; intros; exact I
        | apply pickModel_emits; intros; exact I
        | apply getModel_emits; intros; exact I
        | apply startChatM_emits; exact I
        | apply sendMessageM_emits; exact I ].

Lemma chatHandler_never_fetches reqBody :
  stable (emitsOnly notFetch) (chatHandler H reqBody).
Proof.
  unfold chatHandler. apply (stable_tryCatch _ (emitsOnly_trans notFetch)).
  - unfold chatTry, respond. cbv zeta.
    destruct (negb (truthy (lookupField "message" reqBody)));
      stable_emits notFetch fail.
    destruct (List.length (apiKeys a) =? 0)%nat;
      stable_emits notFetch notFetch_leaf.
    unfold openChat.
    destruct (truthy _ && lengthGtZero H _); stable_emits notFetch notFetch_leaf.
  - intros e. unfold chatCatch, retryWithNextKey, retryAttempt, respond.
    stable_emits notFetch notFetch_leaf.
    + destruct (retryEligible e && (1 <? List.length (apiKeys a2))%nat);
        stable_emits notFetch notFetch_leaf.
    + destruct a3; stable_emits notFetch notFetch_leaf.
Qed.

Lemma handle_never_fetches r (p : Proc (World H)) :
  envTruthy (GEMINI_API_KEY (env p)) = false ->
  emitsOnly notFetch p (snd (handle H r p)).
Proof.
  intros He. destruct r as [reqBody | |]; cbn [handle].
  - apply chatHandler_never_fetches.
  - rewrite (models_without_primary_key H p He). apply emitsOnly_refl.
  - apply emitsOnly_refl.
Qed.

(** X13: the model list needs the primary variable itself: when
    [GEMINI_API_KEY] is unset or empty, the pool is whatever the second
    variable gives (so chat may well work), yet after any sequence of
    requests [GET /api/models] answers 500 "API key not configured", leaves
    the process as it is, and no fetch has ever been made. *)
Theorem model_list_needs_primary_key (e : Env) (w : World H) (rs : list Request) :
  envTruthy (GEMINI_API_KEY e) = false ->
  let p := serve H rs (startup H e w) in
  apiKeys p = keyList (GEMINI_API_KEY_2 e) /\
  modelsHandler H p =
  (Returned {| status := 500; body := Failure "API key not configured" None |},
   p) /\
  (forall url, ~ In (EvFetch url) (trace p)).
Proof.
  intros He p.
  destruct (serve_pool H rs (startup H e w)) as (Henv & Hkeys & _).
  fold p in Henv, Hkeys. cbn [startup env apiKeys] in Henv, Hkeys.
  split; [|split].
  - rewrite Hkeys, collectKeys_keyList.
    destruct (keyList_spec (GEMINI_API_KEY e)) as (_ & _ & Hnil & _).
    now rewrite (proj2 Hnil He).
  - apply models_without_primary_key. now rewrite Henv.
  - assert (Hgrow : forall q, env q = e -> emitsOnly notFetch q (serve H rs q)).
    { clear p Henv Hkeys. induction rs as [|r rs IH]; intros q Hq.
      - apply emitsOnly_refl.
      - cbn [serve]. eapply emitsOnly_trans.
        + apply handle_never_fetches. rewrite Hq. exact He.
        + apply IH. destruct (handle_pool H r q) as (Hq' & _). now rewrite Hq'. }
    destruct (Hgrow (startup H e w) eq_refl) as (evs & Htr & Hall).
    fold p in Htr. intros url Hin. rewrite Htr in Hin.
    apply in_app_or in Hin. destruct Hin as [Hin | Hin].
    + unfold startup in Hin. cbn [trace] in Hin.
      destruct (List.length (collectKeys e) =? 0)%nat; cbn in Hin;
        intuition discriminate.
    + rewrite Forall_forall in Hall. exact (Hall _ Hin).
Qed.

(** X14: what the backend's payload does to the answer: a [null] payload makes
    the handler's own property read throw, which is answered with 500 and
    the TypeError's message; a payload that is not an object (an array, a
    string, a number, a boolean) and an object whose [models] is falsy both
    give an empty list; any truthy [models] is passed on as it is. *)
Theorem model_list_payloads (p : Proc (World H)) key w data :
  GEMINI_API_KEY (env p) = Some key ->
  key <> "" ->
  fetchJson H (world p) (modelsUrl ++ key) = (w, Returned data) ->
  fst (modelsHandler H p) =
  Returned
    match data with
    | JUndefined =>
        {| status := 500;
           body := Failure "Failed to fetch models"
             (Some "Cannot read properties of undefined (reading 'models')") |}
    | JNull =>
        {| status := 500;
           body := Failure "Failed to fetch models"
             (Some "Cannot read properties of null (reading 'models')") |}
    | JObj fields =>
        {| status := 200;
           body := ModelList (if truthy (lookupField "models" fields)
                              then lookupField "models" fields
                              else JArr []) |}
    | _ => {| status := 200; body := ModelList (JArr []) |}
    end /\
  snd (modelsHandler H p) = withWorld w (EvFetch (modelsUrl ++ key)) p.
Proof.
  intros Hk Hne Hf.
  unfold modelsHandler, tryCatch, bind, getState, fetchJsonM, liftO, respond, ret.
  rewrite Hk. apply String.eqb_neq in Hne. rewrite Hne, Hf.
  destruct data; split; reflexivity.
Qed.

End ModelList.

Lemma model_list_needs_primary_key_witness :
  apiKeys (serve quotaHost [PostChat hiBody; GetModels]
             (startup quotaHost secondKeyOnly tt)) = ["key-2"] /\
  fst (chatHandler quotaHost hiBody (startup quotaHost secondKeyOnly tt))
  = Returned {| status := 200; body := ChatReply "pong" |} /\
  modelsHandler quotaHost
    (serve quotaHost [PostChat hiBody; GetModels]
       (startup quotaHost secondKeyOnly tt)) =
  (Returned {| status := 500; body := Failure "API key not configured" None |},
   serve quotaHost [PostChat hiBody; GetModels]
     (startup quotaHost secondKeyOnly tt)).
Proof.
  destruct (model_list_needs_primary_key quotaHost secondKeyOnly tt
              [PostChat hiBody; GetModels] eq_refl) as (Hkeys & Hm & _).
  split; [exact Hkeys|]. split; [reflexivity | exact Hm].
Defined.

Lemma model_list_payloads_witness :
  fst (modelsHandler quotaHost (startup quotaHost twoKeys tt)) =
  Returned {| status := 200;
              body := ModelList (JArr [JStr "models/gemini-2.5-flash"]) |}.
Proof.
  refine (proj1 (model_list_payloads quotaHost (startup quotaHost twoKeys tt)
                   "key-1" tt
                   (JObj [("models", JArr [JStr "models/gemini-2.5-flash"])])
                   eq_refl _ eq_refl)).
  discriminate.
Defined.
